(** * Relationship management of the social-networking backend

  A shallow embedding of [server/concepts/profile.ts] (the follow graph
  kept in the [followers] / [following] arrays of profile documents) and
  of the friend-request lifecycle that [routes.ts] drives through
  [Friending], followed by the properties the specification states about
  them.

  Layout: the JavaScript values the code manipulates ([Js]), the
  document collection ([Doc]), [ProfileConcept] itself ([Profile]), the
  friend-request store ([Friending]); then the lemmas. *)

From Stdlib Require Import List NArith Arith Bool String Lia.
Import ListNotations.

Set Implicit Arguments.

(* ===================================================================== *)
(** ** JavaScript values                                                  *)
(* ===================================================================== *)

Module Js.

(** An [ObjectId] of the [mongodb] package is a JavaScript object: it has
    an identity (where it lives in the heap, [addr]) and a content (the
    12-byte identifier, [hex]).  Two objects made from the same
    identifier are different objects with equal content. *)
Record ObjectId : Type := mkObjectId { addr : nat; hex : N }.

(** [a === b] / SameValueZero on objects: the same object. *)
Definition sameValueZero (a b : ObjectId) : bool := addr a =? addr b.

(** [a.equals(b)] of [ObjectId]: the same identifier
    (what [chat.ts] uses in [leaveChat]). *)
Definition equals (a b : ObjectId) : bool := (hex a =? hex b)%N.

(** [arr.includes(x)]: some element is SameValueZero to [x]. *)
Definition includes (arr : list ObjectId) (x : ObjectId) : bool :=
  existsb (fun y => sameValueZero y x) arr.

(** [arr.push(x)]; the arrays pushed to below are local to one call, so
    the in-place update is the new value of the one variable naming it. *)
Definition push (arr : list ObjectId) (x : ObjectId) : list ObjectId :=
  arr ++ [x].

(** Objects built for the identifiers [vs], at consecutive addresses
    starting at [h]: what decoding a stored array of identifiers gives. *)
Fixpoint objects (h : nat) (vs : list N) : list ObjectId :=
  match vs with
  | [] => []
  | v :: vs' => mkObjectId h v :: objects (S h) vs'
  end.

End Js.

(* ===================================================================== *)
(** ** Documents and their collection                                     *)
(* ===================================================================== *)

Module Doc.

Inductive VerificationStatus : Type := verified | unverified.

(** [ProfileDoc] of [profile.ts], over the representation [Id] of an
    identifier: [N] for a document at rest in the store, [Js.ObjectId]
    for a document the program holds.  [_id] is what [BaseDoc] brings. *)
Record ProfileDoc (Id : Type) : Type := mkProfileDoc {
  _id : N;
  userId : Id;
  name : string;
  expertise : list string;
  interests : list string;
  pastExperience : list string;
  verificationStatus : VerificationStatus;
  gender : string;
  followers : list Id;
  following : list Id
}.

(** [Partial<ProfileDoc>] without the internal fields: each field is
    present or not. *)
Record PartialProfileDoc (Id : Type) : Type := mkPartial {
  p_userId : option Id;
  p_name : option string;
  p_expertise : option (list string);
  p_interests : option (list string);
  p_pastExperience : option (list string);
  p_verificationStatus : option VerificationStatus;
  p_gender : option string;
  p_followers : option (list Id);
  p_following : option (list Id)
}.

Definition or_keep {A : Type} (o : option A) (old : A) : A :=
  match o with Some v => v | None => old end.

(** [$set]: the fields present in [u] replace those of [d]. *)
Definition set_fields {Id : Type} (u : PartialProfileDoc Id) (d : ProfileDoc Id)
  : ProfileDoc Id :=
  mkProfileDoc (_id d)
    (or_keep (p_userId u) (userId d))
    (or_keep (p_name u) (name d))
    (or_keep (p_expertise u) (expertise d))
    (or_keep (p_interests u) (interests d))
    (or_keep (p_pastExperience u) (pastExperience d))
    (or_keep (p_verificationStatus u) (verificationStatus d))
    (or_keep (p_gender u) (gender d))
    (or_keep (p_followers u) (followers d))
    (or_keep (p_following u) (following d)).

(** Writing to the store keeps the identifier of each object. *)
Definition encode_partial (u : PartialProfileDoc Js.ObjectId) : PartialProfileDoc N :=
  mkPartial (option_map Js.hex (p_userId u)) (p_name u) (p_expertise u)
    (p_interests u) (p_pastExperience u) (p_verificationStatus u) (p_gender u)
    (option_map (map Js.hex) (p_followers u))
    (option_map (map Js.hex) (p_following u)).

(** Reading from the store builds new objects, from address [h] on:
    one for [userId], then one per follower, then one per followed. *)
Definition decode (h : nat) (d : ProfileDoc N) : ProfileDoc Js.ObjectId :=
  mkProfileDoc (_id d)
    (Js.mkObjectId h (userId d))
    (name d) (expertise d) (interests d) (pastExperience d)
    (verificationStatus d) (gender d)
    (Js.objects (S h) (followers d))
    (Js.objects (S h + List.length (followers d)) (following d)).

Definition decode_size (d : ProfileDoc N) : nat :=
  S (List.length (followers d) + List.length (following d)).

(** Modelled from the spec: [DocCollection] of [framework/doc.ts], the
    Persistence Collaborator: "generic per-entity-type storage offering
    create-one, read-one, read-many, update, delete, keyed by an opaque
    document identifier and a filter predicate", with no transaction
    across documents.  Documents are kept in insertion order; read-one
    and update act on the first document the filter accepts. *)
Record DocCollection : Type := mkCollection {
  docs : list (ProfileDoc N);
  minted : N
}.

Definition Filter : Type := ProfileDoc N -> bool.

(** [createOne(item)]: the item comes without the internal fields, the
    store supplies [_id]; the new document goes last. *)
Definition createOne (item : N -> ProfileDoc N) (c : DocCollection) : N * DocCollection :=
  (minted c, mkCollection (docs c ++ [item (minted c)]) (N.succ (minted c))).

Definition readOne (filter : Filter) (c : DocCollection) : option (ProfileDoc N) :=
  find filter (docs c).

Fixpoint update_first (filter : Filter) (u : PartialProfileDoc N)
  (l : list (ProfileDoc N)) : list (ProfileDoc N) :=
  match l with
  | [] => []
  | d :: l' => if filter d then set_fields u d :: l'
               else d :: update_first filter u l'
  end.

Definition partialUpdateOne (filter : Filter) (u : PartialProfileDoc N)
  (c : DocCollection) : DocCollection :=
  mkCollection (update_first filter u (docs c)) (minted c).

End Doc.

(* ===================================================================== *)
(** ** Runtime: the heap of objects and the [profiles] collection        *)
(* ===================================================================== *)

Module Run.

(** [heap_top] is the first address no object has been given yet;
    [profiles] is the collection [ProfileConcept] owns. *)
Record Runtime : Type := mkRuntime {
  heap_top : nat;
  profiles : Doc.DocCollection
}.

Inductive Error : Type :=
| ProfileNotFoundError (userId : Js.ObjectId).

Inductive Result (A : Type) : Type :=
| Ok (a : A)
| Throw (e : Error).
Arguments Throw {A} e.

(** An [async] method: runs from a runtime, ends in a value or a thrown
    error, and in the runtime it leaves behind. *)
Definition M (A : Type) : Type := Runtime -> Result A * Runtime.

Definition ret {A : Type} (a : A) : M A := fun rt => (Ok a, rt).

Definition throw {A : Type} (e : Error) : M A := fun rt => (Throw e, rt).

Definition bind {A B : Type} (m : M A) (k : A -> M B) : M B :=
  fun rt => match m rt with
            | (Ok a, rt') => k a rt'
            | (Throw e, rt') => (Throw e, rt')
            end.

Definition when (b : bool) (m : M unit) : M unit :=
  if b then m else ret tt.

(** An object was made before the runtime reached [rt]. *)
Definition live (rt : Runtime) (o : Js.ObjectId) : Prop := Js.addr o < heap_top rt.

(** [new ObjectId(id)], as [routes.ts] does for each request. *)
Definition newObjectId (id : N) : M Js.ObjectId :=
  fun rt => (Ok (Js.mkObjectId (heap_top rt) id),
             mkRuntime (S (heap_top rt)) (profiles rt)).

(** Modelled from the spec: [DocCollection.readOne] of [framework/doc.ts]
    as the concept awaits it.  The collaborator is a document store: the
    document found, if any, is handed over by value, so every [ObjectId]
    in it is an object built by this read. *)
Definition readOne (filter : Doc.Filter) : M (option (Doc.ProfileDoc Js.ObjectId)) :=
  fun rt => match Doc.readOne filter (profiles rt) with
            | None => (Ok None, rt)
            | Some d => (Ok (Some (Doc.decode (heap_top rt) d)),
                         mkRuntime (heap_top rt + Doc.decode_size d) (profiles rt))
            end.

(** Modelled from the spec: [DocCollection.partialUpdateOne] of
    [framework/doc.ts] as the concept awaits it: the fields given are
    written, by value, to the first document the filter accepts. *)
Definition partialUpdateOne (filter : Doc.Filter)
  (update : Doc.PartialProfileDoc Js.ObjectId) : M unit :=
  fun rt => (Ok tt,
             mkRuntime (heap_top rt)
               (Doc.partialUpdateOne filter (Doc.encode_partial update) (profiles rt))).

(** Modelled from the spec: [DocCollection.createOne] of
    [framework/doc.ts] as the concept awaits it. *)
Definition createOne (item : N -> Doc.ProfileDoc N) : M N :=
  fun rt => let (i, c) := Doc.createOne item (profiles rt) in
            (Ok i, mkRuntime (heap_top rt) c).

End Run.

Declare Scope async_scope.
Delimit Scope async_scope with async.
Notation "x <- m ;; k" := (Run.bind m (fun x => k))
  (at level 61, m at next level, right associativity) : async_scope.
Notation "m ;;; k" := (Run.bind m (fun _ => k))
  (at level 61, right associativity) : async_scope.

(* ===================================================================== *)
(** ** [ProfileConcept]                                                   *)
(* ===================================================================== *)

Module Profile.

Import Run.
Local Open Scope async_scope.

(** The filter [{ userId: x }]: the store compares identifiers. *)
Definition owned_by (id : N) : Doc.Filter := fun d => (Doc.userId d =? id)%N.

Definition by_userId (x : Js.ObjectId) : Doc.Filter := owned_by (Js.hex x).

Definition createProfile (userId : Js.ObjectId) (name : string)
  (expertise interests pastExperience : list string) (gender : string) : M N :=
  createOne (fun i =>
    Doc.mkProfileDoc i (Js.hex userId) name expertise interests pastExperience
      Doc.unverified gender [] []).

Definition editProfile (userId : Js.ObjectId)
  (updatedInfo : Doc.PartialProfileDoc Js.ObjectId) : M unit :=
  partialUpdateOne (by_userId userId) updatedInfo.

Definition verifyProfile (userId : Js.ObjectId) : M unit :=
  partialUpdateOne (by_userId userId)
    (Doc.mkPartial None None None None None (Some Doc.verified) None None None).

Definition only_followers (l : list Js.ObjectId) : Doc.PartialProfileDoc Js.ObjectId :=
  Doc.mkPartial None None None None None None None (Some l) None.

Definition only_following (l : list Js.ObjectId) : Doc.PartialProfileDoc Js.ObjectId :=
  Doc.mkPartial None None None None None None None None (Some l).

Definition followed : string := "User followed successfully".

(** [followUser], lines 51-68.  Both guards are [Array.prototype.includes]
    on an array of [ObjectId] objects that [readOne] has just handed
    over, asked about an object the caller passed in. *)
Definition followUser (userId targetUserId : Js.ObjectId) : M string :=
  profile <- readOne (by_userId targetUserId) ;;
  match profile with
  | None => throw (ProfileNotFoundError targetUserId)
  | Some profile =>
      when (negb (Js.includes (Doc.followers profile) userId))
        (partialUpdateOne (by_userId targetUserId)
           (only_followers (Js.push (Doc.followers profile) userId))) ;;;
      currentUserProfile <- readOne (by_userId userId) ;;
      match currentUserProfile with
      | Some cur =>
          when (negb (Js.includes (Doc.following cur) targetUserId))
            (partialUpdateOne (by_userId userId)
               (only_following (Js.push (Doc.following cur) targetUserId)))
      | None => ret tt
      end ;;;
      ret followed
  end.

Definition getProfile (userId : Js.ObjectId) : M (Doc.ProfileDoc Js.ObjectId) :=
  profile <- readOne (by_userId userId) ;;
  match profile with
  | None => throw (ProfileNotFoundError userId)
  | Some profile => ret profile
  end.

Definition getFollowers (userId : Js.ObjectId) : M (list Js.ObjectId) :=
  profile <- readOne (by_userId userId) ;;
  match profile with
  | None => throw (ProfileNotFoundError userId)
  | Some profile => ret (Doc.followers profile)
  end.

Definition getFollowing (userId : Js.ObjectId) : M (list Js.ObjectId) :=
  profile <- readOne (by_userId userId) ;;
  match profile with
  | None => throw (ProfileNotFoundError userId)
  | Some profile => ret (Doc.following profile)
  end.

(** The profile of an identifier: the document [readOne({ userId })] finds. *)
Definition profile_of (rt : Runtime) (id : N) : option (Doc.ProfileDoc N) :=
  Doc.readOne (owned_by id) (profiles rt).

(** The runtime an [async] call leaves, whether it returned or threw. *)
Definition after {A : Type} (m : M A) (rt : Runtime) : Runtime := snd (m rt).

Definition outcome {A : Type} (m : M A) (rt : Runtime) : Result A := fst (m rt).

(** The stored documents. *)
Definition stored (rt : Runtime) : list (Doc.ProfileDoc N) := Doc.docs (profiles rt).

(** The cross-document invariant of the follow graph, over the pairs of
    identifiers that both have a profile. *)
Definition symmetric (rt : Runtime) : Prop :=
  forall (A B : N) (pa pb : Doc.ProfileDoc N),
    profile_of rt A = Some pa -> profile_of rt B = Some pb ->
    (In A (Doc.followers pb) <-> In B (Doc.following pa)).

(** Runtimes reached by calls of [followUser] on objects made earlier;
    between calls the caller may make new objects, as the route does with
    [new ObjectId(targetUserId)]. *)
Inductive follows (rt : Runtime) : Runtime -> Prop :=
| follows_start : follows rt rt
| follows_new (rt' : Runtime) (id : N) :
    follows rt rt' -> follows rt (after (newObjectId id) rt')
| follows_call (rt' : Runtime) (userId targetUserId : Js.ObjectId) :
    follows rt rt' -> live rt' userId -> live rt' targetUserId ->
    follows rt (after (followUser userId targetUserId) rt').

(** [l'] is [l] with elements added at the end. *)
Definition extends {A : Type} (l l' : list A) : Prop := exists k, l' = l ++ k.

(** What one call [followUser(user, target)] may do to one document. *)
Record framed (user target : N) (d d' : Doc.ProfileDoc N) : Prop := mkFramed {
  framed_id : Doc._id d' = Doc._id d;
  framed_userId : Doc.userId d' = Doc.userId d;
  framed_name : Doc.name d' = Doc.name d;
  framed_expertise : Doc.expertise d' = Doc.expertise d;
  framed_interests : Doc.interests d' = Doc.interests d;
  framed_pastExperience : Doc.pastExperience d' = Doc.pastExperience d;
  framed_verificationStatus : Doc.verificationStatus d' = Doc.verificationStatus d;
  framed_gender : Doc.gender d' = Doc.gender d;
  framed_followers : extends (Doc.followers d) (Doc.followers d');
  framed_following : extends (Doc.following d) (Doc.following d');
  framed_followers_target : Doc.userId d <> target -> Doc.followers d' = Doc.followers d;
  framed_following_user : Doc.userId d <> user -> Doc.following d' = Doc.following d
}.

(** The profile [p] after [user] started to follow [target], seen from
    the identifier [x] that owns it. *)
Definition bump (user target x : N) (p : Doc.ProfileDoc N) : Doc.ProfileDoc N :=
  Doc.mkProfileDoc (Doc._id p) (Doc.userId p) (Doc.name p) (Doc.expertise p)
    (Doc.interests p) (Doc.pastExperience p) (Doc.verificationStatus p)
    (Doc.gender p)
    (Doc.followers p ++ (if (x =? target)%N then [user] else []))
    (Doc.following p ++ (if (x =? user)%N then [target] else [])).

End Profile.

(* ===================================================================== *)
(** ** The friend-request store                                           *)
(* ===================================================================== *)

Module Friending.

Definition Identity : Type := N.

(** A pending request, a directed proposal [from -> to].  A resolved
    request is discarded, so every record kept is pending. *)
Record FriendRequest : Type := mkRequest {
  request_id : N;
  from : Identity;
  to : Identity
}.

(** Modelled from the spec: the state of [FriendingConcept]
    ([concepts/friending.ts]): the Request Store (pending requests, oldest
    first) and the Friendship Index (one stored orientation per edge,
    queried in both). *)
Record State : Type := mkState {
  requests : list FriendRequest;
  friendships : list (Identity * Identity);
  minted : N
}.

Inductive Error : Type :=
| SelfRequestError
| AlreadyFriendsError
| DuplicateRequestError
| RequestNotFoundError
| FriendshipNotFoundError.

(** A failed operation leaves the state as it was; a successful one
    gives its result and the new state. *)
Definition Outcome (A : Type) : Type := (Error + A * State)%type.

Definition is_request (f t : Identity) (r : FriendRequest) : bool :=
  (from r =? f)%N && (to r =? t)%N.

Definition is_edge (a b : Identity) (e : Identity * Identity) : bool :=
  ((fst e =? a)%N && (snd e =? b)%N) || ((fst e =? b)%N && (snd e =? a)%N).

Fixpoint discard {A : Type} (p : A -> bool) (l : list A) : list A :=
  match l with
  | [] => []
  | x :: l' => if p x then l' else x :: discard p l'
  end.

(** Modelled from the spec: [sendRequest(from, to)] of
    [concepts/friending.ts]: "fails with SelfRequestError if from == to;
    fails with AlreadyFriendsError if a Friendship Edge already exists;
    fails with DuplicateRequestError if a Pending request already exists
    in either direction between the pair.  Side effect: creates a Pending
    record.  Returns the created record identity." *)
Definition sendRequest (f t : Identity) (s : State) : Outcome N :=
  if (f =? t)%N then inl SelfRequestError
  else if existsb (is_edge f t) (friendships s) then inl AlreadyFriendsError
  else if existsb (is_request f t) (requests s) || existsb (is_request t f) (requests s)
       then inl DuplicateRequestError
  else inr (minted s,
            mkState (requests s ++ [mkRequest (minted s) f t]) (friendships s)
              (N.succ (minted s))).

(** Modelled from the spec: [removeRequest(from, to)]: "deletes the
    Pending request authored by from directed at to.  Fails with
    RequestNotFoundError if none exists.  No effect on any existing
    Friendship Edge." *)
Definition removeRequest (f t : Identity) (s : State) : Outcome unit :=
  if existsb (is_request f t) (requests s)
  then inr (tt, mkState (discard (is_request f t) (requests s)) (friendships s) (minted s))
  else inl RequestNotFoundError.

(** Modelled from the spec: [acceptRequest(from, to)]: "to accepts a
    Pending request originally sent from -> to.  Fails with
    RequestNotFoundError if no such Pending request exists.  On success:
    atomically creates the Friendship Edge {from,to} and discards the
    Pending record." *)
Definition acceptRequest (f t : Identity) (s : State) : Outcome unit :=
  if existsb (is_request f t) (requests s)
  then inr (tt, mkState (discard (is_request f t) (requests s))
                  (friendships s ++ [(f, t)]) (minted s))
  else inl RequestNotFoundError.

(** Modelled from the spec: [rejectRequest(from, to)]: "discards the
    Pending request without creating a Friendship Edge.  Fails with
    RequestNotFoundError if none exists." *)
Definition rejectRequest (f t : Identity) (s : State) : Outcome unit :=
  if existsb (is_request f t) (requests s)
  then inr (tt, mkState (discard (is_request f t) (requests s)) (friendships s) (minted s))
  else inl RequestNotFoundError.

(** Modelled from the spec: [getRequests(user)]: "the set of Pending
    requests where user is the recipient". *)
Definition getRequests (user : Identity) (s : State) : list FriendRequest :=
  filter (fun r => (to r =? user)%N) (requests s).

Definition other_end (user : Identity) (e : Identity * Identity) : option Identity :=
  if (fst e =? user)%N then Some (snd e)
  else if (snd e =? user)%N then Some (fst e)
  else None.

Fixpoint ends_with (user : Identity) (es : list (Identity * Identity)) : list Identity :=
  match es with
  | [] => []
  | e :: es' => match other_end user e with
                | Some x => x :: ends_with user es'
                | None => ends_with user es'
                end
  end.

(** Modelled from the spec: [getFriends(user)]: "the set of identities
    forming a Friendship Edge with user". *)
Definition getFriends (user : Identity) (s : State) : list Identity :=
  ends_with user (friendships s).

(** Modelled from the spec: [removeFriend(user, friend)]: "deletes the
    Friendship Edge {user,friend} if present; fails with
    FriendshipNotFoundError otherwise." *)
Definition removeFriend (user friend : Identity) (s : State) : Outcome unit :=
  if existsb (is_edge user friend) (friendships s)
  then inr (tt, mkState (requests s) (discard (is_edge user friend) (friendships s)) (minted s))
  else inl FriendshipNotFoundError.

Definition empty : State := mkState [] [] 0%N.

(** One successful mutation of the store. *)
Inductive step (s : State) : State -> Prop :=
| step_send f t i s' : sendRequest f t s = inr (i, s') -> step s s'
| step_remove f t s' : removeRequest f t s = inr (tt, s') -> step s s'
| step_accept f t s' : acceptRequest f t s = inr (tt, s') -> step s s'
| step_reject f t s' : rejectRequest f t s = inr (tt, s') -> step s s'
| step_unfriend u f s' : removeFriend u f s = inr (tt, s') -> step s s'.

(** The states the operations can produce from the empty store. *)
Inductive reachable : State -> Prop :=
| reachable_empty : reachable empty
| reachable_step s s' : reachable s -> step s s' -> reachable s'.

(** The endpoints of a request. *)
Definition ends (r : FriendRequest) : Identity * Identity := (from r, to r).

(** No two pending requests have the same sender and the same recipient
    (the part of "at most one outstanding Pending request per pair" that
    acceptance relies on). *)
Definition exclusive (s : State) : Prop := NoDup (map ends (requests s)).

End Friending.

(* ===================================================================== *)
(** ** The routes that reach the two concepts                             *)
(* ===================================================================== *)

Module Routes.

Section Collaborators.

(** [Sessioning.getUser] and [Authing.getUserByUsername] belong to other
    concepts; [None] stands for a call that throws. *)
Variable SessionDoc : Type.
Variable getUser : SessionDoc -> option Friending.Identity.
Variable getUserByUsername : string -> option Friending.Identity.

(** [PUT /friend/accept/:from]; [None] when a collaborator threw before
    [Friending] was reached. *)
Definition acceptFriendRequest (session : SessionDoc) (from : string)
  (s : Friending.State) : option (Friending.Outcome unit) :=
  match getUser session with
  | None => None
  | Some user =>
      match getUserByUsername from with
      | None => None
      | Some fromOid => Some (Friending.acceptRequest fromOid user s)
      end
  end.

End Collaborators.

End Routes.

(* ===================================================================== *)
(** ** Small runtimes used to run the code                                *)
(* ===================================================================== *)

Module Scenario.

Import Run Profile.
Local Open Scope async_scope.

Definition alice : N := 1.
Definition bob : N := 2.
Definition carol : N := 3.

Definition nothing : Runtime := mkRuntime 0 (Doc.mkCollection [] 0).

(** Alice and Bob sign up; each call of the concept gets an object of its
    own for the identifier, as the routes make one per request. *)
Definition sign_up : M unit :=
  a <- newObjectId alice ;;
  createProfile a "alice" ["types"%string] ["proofs"%string] [] "f" ;;;
  b <- newObjectId bob ;;
  createProfile b "bob" [] ["chess"%string] ["teacher"%string] "m" ;;;
  ret tt.

Definition signed_up : Runtime := after sign_up nothing.

(** Only Bob has a profile. *)
Definition only_bob : Runtime :=
  after (b <- newObjectId bob ;; createProfile b "bob" [] [] [] "m") nothing.

(** [PUT /profiles/:target/follow] by [user]. *)
Definition follow (user target : N) : M string :=
  u <- newObjectId user ;;
  t <- newObjectId target ;;
  followUser u t.

Definition followers_of (id : N) (rt : Runtime) : option (list N) :=
  option_map (@Doc.followers N) (profile_of rt id).

Definition following_of (id : N) (rt : Runtime) : option (list N) :=
  option_map (@Doc.following N) (profile_of rt id).

(** Objects the caller holds in [signed_up] (made during [sign_up]). *)
Definition alice_object : Js.ObjectId := Js.mkObjectId 0 alice.
Definition bob_object : Js.ObjectId := Js.mkObjectId 1 bob.

(** Alice already follows Bob. *)
Definition alice_follows_bob : Runtime := after (followUser alice_object bob_object) signed_up.

(** Friend requests: Alice asks Bob. *)
Definition alice_asked_bob : Friending.State :=
  match Friending.sendRequest alice bob Friending.empty with
  | inr (_, s) => s
  | inl _ => Friending.empty
  end.

(** Then Bob accepts. *)
Definition bob_accepted : Friending.State :=
  match Friending.acceptRequest alice bob alice_asked_bob with
  | inr (_, s) => s
  | inl _ => alice_asked_bob
  end.

(** Carol, who has no profile, holds an object for her identifier. *)
Definition carol_visits : Runtime := after (newObjectId carol) signed_up.
Definition carol_object : Js.ObjectId := Js.mkObjectId 2 carol.

End Scenario.

(* ===================================================================== *)
(** ** The other concepts: a collection of any schema                     *)
(* ===================================================================== *)

Module Async.

(** An [async] method over a runtime [S] that may throw an [E]. *)
Inductive Result (E A : Type) : Type :=
| Ok (a : A)
| Throw (e : E).
Arguments Ok {E A} a.
Arguments Throw {E A} e.

Definition M (S E A : Type) : Type := S -> Result E A * S.

Definition ret {S E A : Type} (a : A) : M S E A := fun rt => (Ok a, rt).

Definition throw {S E A : Type} (e : E) : M S E A := fun rt => (Throw e, rt).

Definition bind {S E A B : Type} (m : M S E A) (k : A -> M S E B) : M S E B :=
  fun rt => match m rt with
            | (Ok a, rt') => k a rt'
            | (Throw e, rt') => (Throw e, rt')
            end.

Definition after {S E A : Type} (m : M S E A) (rt : S) : S := snd (m rt).

Definition outcome {S E A : Type} (m : M S E A) (rt : S) : Result E A := fst (m rt).

End Async.

Declare Scope task_scope.
Delimit Scope task_scope with task.
Notation "x <- m ;; k" := (Async.bind m (fun x => k))
  (at level 61, m at next level, right associativity) : task_scope.
Notation "m ;;; k" := (Async.bind m (fun _ => k))
  (at level 61, right associativity) : task_scope.

Module Store.

Section Collection.

(** The documents of one schema; [id_of] reads [_id], [with_id] sets it. *)
Variable Schema : Type.
Variable id_of : Schema -> N.
Variable with_id : N -> Schema -> Schema.

(** Modelled from the spec: [DocCollection<Schema>] of [framework/doc.ts],
    the Persistence Collaborator: "generic per-entity-type storage
    offering create-one, read-one, read-many, update, delete, keyed by an
    opaque document identifier and a filter predicate".  Documents are
    kept in insertion order; the one-document operations act on the first
    document the filter accepts; a replaced document keeps its [_id]. *)
Record Collection : Type := mkCollection {
  docs : list Schema;
  minted : N
}.

Definition createOne (item : N -> Schema) (c : Collection) : N * Collection :=
  (minted c, mkCollection (docs c ++ [item (minted c)]) (N.succ (minted c))).

Definition readOne (filter : Schema -> bool) (c : Collection) : option Schema :=
  find filter (docs c).

Definition readMany (filter : Schema -> bool) (c : Collection) : list Schema :=
  List.filter filter (docs c).

Fixpoint replace_first (filter : Schema -> bool) (item : Schema) (l : list Schema)
  : list Schema :=
  match l with
  | [] => []
  | d :: l' => if filter d then with_id (id_of d) item :: l'
               else d :: replace_first filter item l'
  end.

Definition replaceOne (filter : Schema -> bool) (item : Schema) (c : Collection)
  : Collection :=
  mkCollection (replace_first filter item (docs c)) (minted c).

Fixpoint delete_first (filter : Schema -> bool) (l : list Schema) : list Schema :=
  match l with
  | [] => []
  | d :: l' => if filter d then l' else d :: delete_first filter l'
  end.

Definition deleteOne (filter : Schema -> bool) (c : Collection) : Collection :=
  mkCollection (delete_first filter (docs c)) (minted c).

(** The filter [{ _id: i }]. *)
Definition has_id (i : N) : Schema -> bool := fun d => (id_of d =? i)%N.

(** Every [_id] in use was minted by the collection, once. *)
Definition minted_ids (c : Collection) : Prop :=
  Forall (fun d => (id_of d < minted c)%N) (docs c) /\ NoDup (map id_of (docs c)).

End Collection.

End Store.

(* ===================================================================== *)
(** ** [ChatConcept]                                                      *)
(* ===================================================================== *)

Module Chat.

Import Async.
Local Open Scope task_scope.

Inductive ChatType : Type := Private | Group.

(** [Message] and [ChatDoc] of [chat.ts], over the representation of an
    identifier as for [ProfileDoc]; a [Date] is its time value. *)
Record Message (Id : Type) : Type := mkMessage {
  author : Id;
  text : string;
  timestamp : N
}.

Record ChatDoc (Id : Type) : Type := mkChatDoc {
  _id : N;
  type : ChatType;
  participants : list Id;
  messages : list (Message Id)
}.

Definition with_id {Id : Type} (i : N) (d : ChatDoc Id) : ChatDoc Id :=
  mkChatDoc i (type d) (participants d) (messages d).

Definition encode_message (m : Message Js.ObjectId) : Message N :=
  mkMessage (Js.hex (author m)) (text m) (timestamp m).

Definition encode (d : ChatDoc Js.ObjectId) : ChatDoc N :=
  mkChatDoc (_id d) (type d) (map Js.hex (participants d))
    (map encode_message (messages d)).

Fixpoint decode_messages (h : nat) (ms : list (Message N)) : list (Message Js.ObjectId) :=
  match ms with
  | [] => []
  | m :: ms' => mkMessage (Js.mkObjectId h (author m)) (text m) (timestamp m)
                :: decode_messages (S h) ms'
  end.

(** Reading builds new objects: one per participant, then one per
    message author. *)
Definition decode (h : nat) (d : ChatDoc N) : ChatDoc Js.ObjectId :=
  mkChatDoc (_id d) (type d) (Js.objects h (participants d))
    (decode_messages (h + List.length (participants d)) (messages d)).

Definition decode_size (d : ChatDoc N) : nat :=
  List.length (participants d) + List.length (messages d).

(** [clock] is what [new Date()] reads; [chats] is the collection
    [ChatConcept] owns. *)
Record Runtime : Type := mkRuntime {
  heap_top : nat;
  clock : N;
  chats : Store.Collection (ChatDoc N)
}.

Inductive Error : Type :=
| ChatNotFoundError (chatId : Js.ObjectId).

Definition Task (A : Type) : Type := M Runtime Error A.

(** [new Date()]. *)
Definition newDate : Task N := fun rt => (Ok (clock rt), rt).

(** Modelled from the spec: [DocCollection.createOne] of
    [framework/doc.ts] as the concept awaits it. *)
Definition createOne (item : N -> ChatDoc N) : Task N :=
  fun rt => let (i, c) := Store.createOne item (chats rt) in
            (Ok i, mkRuntime (heap_top rt) (clock rt) c).

(** Modelled from the spec: [DocCollection.readOne] of [framework/doc.ts]
    as the concept awaits it; the document found is handed over by value,
    as newly built objects. *)
Definition readOne (filter : ChatDoc N -> bool) : Task (option (ChatDoc Js.ObjectId)) :=
  fun rt => match Store.readOne filter (chats rt) with
            | None => (Ok None, rt)
            | Some d => (Ok (Some (decode (heap_top rt) d)),
                         mkRuntime (heap_top rt + decode_size d) (clock rt) (chats rt))
            end.

(** Modelled from the spec: [DocCollection.replaceOne] of
    [framework/doc.ts] as the concept awaits it: the first document the
    filter accepts is replaced, by value, and keeps its [_id]. *)
Definition replaceOne (filter : ChatDoc N -> bool) (item : ChatDoc Js.ObjectId) : Task unit :=
  fun rt => (Ok tt,
             mkRuntime (heap_top rt) (clock rt)
               (Store.replaceOne (@_id N) with_id filter (encode item) (chats rt))).

(** The filter [{ _id: chatId }]. *)
Definition by_id (chatId : Js.ObjectId) : ChatDoc N -> bool :=
  Store.has_id (@_id N) (Js.hex chatId).

Definition startPrivateChat (user1 user2 : Js.ObjectId) : Task N :=
  createOne (fun i => mkChatDoc i Private [Js.hex user1; Js.hex user2] []).

Definition startGroupChat (users : list Js.ObjectId) : Task N :=
  createOne (fun i => mkChatDoc i Group (map Js.hex users) []).

Definition sent : string := "Message sent successfully".

Definition sendMessage (chatId author : Js.ObjectId) (text : string) : Task string :=
  chat <- readOne (by_id chatId) ;;
  match chat with
  | None => throw (ChatNotFoundError chatId)
  | Some chat =>
      timestamp <- newDate ;;
      let newMessage := mkMessage author text timestamp in
      replaceOne (by_id chatId)
        (mkChatDoc (_id chat) (type chat) (participants chat)
           (messages chat ++ [newMessage])) ;;;
      ret sent
  end.

Definition getChat (chatId : Js.ObjectId) : Task (ChatDoc Js.ObjectId) :=
  chat <- readOne (by_id chatId) ;;
  match chat with
  | None => throw (ChatNotFoundError chatId)
  | Some chat => ret chat
  end.

Definition left : string := "Left chat successfully".

Definition leaveChat (chatId userId : Js.ObjectId) : Task string :=
  chat <- readOne (by_id chatId) ;;
  match chat with
  | None => throw (ChatNotFoundError chatId)
  | Some chat =>
      replaceOne (by_id chatId)
        (mkChatDoc (_id chat) (type chat)
           (filter (fun participant => negb (Js.equals participant userId))
              (participants chat))
           (messages chat)) ;;;
      ret left
  end.

(** The chat stored under an identifier. *)
Definition chat_of (rt : Runtime) (i : N) : option (ChatDoc N) :=
  Store.readOne (Store.has_id (@_id N) i) (chats rt).

(** The participants other than [user], in order. *)
Definition without (user : N) (ps : list N) : list N :=
  filter (fun p => negb (p =? user)%N) ps.

(** The chat [d] after [user] left it, and after [m] was sent to it. *)
Definition departed (user : N) (d : ChatDoc N) : ChatDoc N :=
  mkChatDoc (_id d) (type d) (without user (participants d)) (messages d).

Definition posted (m : Message N) (d : ChatDoc N) : ChatDoc N :=
  mkChatDoc (_id d) (type d) (participants d) (messages d ++ [m]).

Definition stored (rt : Runtime) : list (ChatDoc N) := Store.docs (chats rt).

End Chat.

(* ===================================================================== *)
(** ** [CommentingConcept]                                                *)
(* ===================================================================== *)

Module Commenting.

Import Async.
Local Open Scope task_scope.

(** [CommentDoc] of [commenting.ts]. *)
Record CommentDoc (Id : Type) : Type := mkCommentDoc {
  _id : N;
  postId : Id;
  author : Id;
  text : string;
  timestamp : N
}.

Definition with_id {Id : Type} (i : N) (d : CommentDoc Id) : CommentDoc Id :=
  mkCommentDoc i (postId d) (author d) (text d) (timestamp d).

Definition encode (d : CommentDoc Js.ObjectId) : CommentDoc N :=
  mkCommentDoc (_id d) (Js.hex (postId d)) (Js.hex (author d)) (text d) (timestamp d).

(** Reading builds two new objects, for [postId] and [author]. *)
Definition decode (h : nat) (d : CommentDoc N) : CommentDoc Js.ObjectId :=
  mkCommentDoc (_id d) (Js.mkObjectId h (postId d)) (Js.mkObjectId (S h) (author d))
    (text d) (timestamp d).

Fixpoint decode_all (h : nat) (l : list (CommentDoc N)) : list (CommentDoc Js.ObjectId) :=
  match l with
  | [] => []
  | d :: l' => decode h d :: decode_all (S (S h)) l'
  end.

Record Runtime : Type := mkRuntime {
  heap_top : nat;
  clock : N;
  comments : Store.Collection (CommentDoc N)
}.

Inductive Error : Type :=
| CommentNotFoundError (commentId : Js.ObjectId).

Definition Task (A : Type) : Type := M Runtime Error A.

(** [new Date()]. *)
Definition newDate : Task N := fun rt => (Ok (clock rt), rt).

(** Modelled from the spec: [DocCollection.createOne] of
    [framework/doc.ts] as the concept awaits it. *)
Definition createOne (item : N -> CommentDoc N) : Task N :=
  fun rt => let (i, c) := Store.createOne item (comments rt) in
            (Ok i, mkRuntime (heap_top rt) (clock rt) c).

(** Modelled from the spec: [DocCollection.readOne] of [framework/doc.ts]
    as the concept awaits it. *)
Definition readOne (filter : CommentDoc N -> bool) : Task (option (CommentDoc Js.ObjectId)) :=
  fun rt => match Store.readOne filter (comments rt) with
            | None => (Ok None, rt)
            | Some d => (Ok (Some (decode (heap_top rt) d)),
                         mkRuntime (heap_top rt + 2) (clock rt) (comments rt))
            end.

(** Modelled from the spec: [DocCollection.readMany] of
    [framework/doc.ts] as the concept awaits it: every document the
    filter accepts, in insertion order. *)
Definition readMany (filter : CommentDoc N -> bool) : Task (list (CommentDoc Js.ObjectId)) :=
  fun rt => let found := Store.readMany filter (comments rt) in
            (Ok (decode_all (heap_top rt) found),
             mkRuntime (heap_top rt + 2 * List.length found) (clock rt) (comments rt)).

(** Modelled from the spec: [DocCollection.replaceOne] of
    [framework/doc.ts] as the concept awaits it. *)
Definition replaceOne (filter : CommentDoc N -> bool) (item : CommentDoc Js.ObjectId) : Task unit :=
  fun rt => (Ok tt,
             mkRuntime (heap_top rt) (clock rt)
               (Store.replaceOne (@_id N) with_id filter (encode item) (comments rt))).

(** Modelled from the spec: [DocCollection.deleteOne] of
    [framework/doc.ts] as the concept awaits it: the first document the
    filter accepts, if any, is removed. *)
Definition deleteOne (filter : CommentDoc N -> bool) : Task unit :=
  fun rt => (Ok tt,
             mkRuntime (heap_top rt) (clock rt) (Store.deleteOne filter (comments rt))).

(** The filters [{ _id: commentId }] and [{ postId }]. *)
Definition by_id (commentId : Js.ObjectId) : CommentDoc N -> bool :=
  Store.has_id (@_id N) (Js.hex commentId).

Definition on_post (post : N) : CommentDoc N -> bool :=
  fun d => (postId d =? post)%N.

Definition addComment (postId author : Js.ObjectId) (text : string) : Task N :=
  timestamp <- newDate ;;
  createOne (fun i => mkCommentDoc i (Js.hex postId) (Js.hex author) text timestamp).

Definition updated : string := "Comment updated successfully".

Definition editComment (commentId : Js.ObjectId) (newText : string) : Task string :=
  comment <- readOne (by_id commentId) ;;
  match comment with
  | None => throw (CommentNotFoundError commentId)
  | Some comment =>
      timestamp <- newDate ;;
      replaceOne (by_id commentId)
        (mkCommentDoc (_id comment) (postId comment) (author comment) newText timestamp) ;;;
      ret updated
  end.

Definition deleted : string := "Comment deleted successfully".

Definition deleteComment (commentId : Js.ObjectId) : Task string :=
  deleteOne (by_id commentId) ;;;
  ret deleted.

Definition getCommentsByPost (postId : Js.ObjectId) : Task (list (CommentDoc Js.ObjectId)) :=
  readMany (on_post (Js.hex postId)).

(** The comment stored under an identifier, and the stored comments. *)
Definition comment_of (rt : Runtime) (i : N) : option (CommentDoc N) :=
  Store.readOne (Store.has_id (@_id N) i) (comments rt).

Definition stored (rt : Runtime) : list (CommentDoc N) := Store.docs (comments rt).

(** The comment [d] after an edit to [newText] at time [now]. *)
Definition edited (newText : string) (now : N) (d : CommentDoc N) : CommentDoc N :=
  mkCommentDoc (_id d) (postId d) (author d) newText now.

End Commenting.

(* ===================================================================== *)
(** ** Small runtimes for the other concepts                              *)
(* ===================================================================== *)

Module Rooms.

Import Async.

Definition ann : Js.ObjectId := Js.mkObjectId 0 11.
Definition ben : Js.ObjectId := Js.mkObjectId 1 12.
Definition cat : Js.ObjectId := Js.mkObjectId 2 13.

(** No chat yet; then Ann and Ben in a private chat, which gets [_id] 0. *)
Definition no_chat : Chat.Runtime := Chat.mkRuntime 3 1000 (Store.mkCollection [] 0).

Definition one_chat : Chat.Runtime := after (Chat.startPrivateChat ann ben) no_chat.

Definition the_chat : Js.ObjectId := Js.mkObjectId 3 0.

(** No comment yet; then Ann comments on post 7, which gets [_id] 0. *)
Definition no_comment : Commenting.Runtime :=
  Commenting.mkRuntime 5 2000 (Store.mkCollection [] 0).

Definition the_post : Js.ObjectId := Js.mkObjectId 4 7.

Definition one_comment : Commenting.Runtime :=
  after (Commenting.addComment the_post ann "first") no_comment.

Definition the_comment : Js.ObjectId := Js.mkObjectId 3 0.
Definition no_such_comment : Js.ObjectId := Js.mkObjectId 3 5.

End Rooms.

(* ===================================================================== *)
(** ** Profiles: what the statements below compare with                   *)
(* ===================================================================== *)

Module Profiles.

Import Run Profile.

(** The profile [p] once verified. *)
Definition marked_verified (p : Doc.ProfileDoc N) : Doc.ProfileDoc N :=
  Doc.mkProfileDoc (Doc._id p) (Doc.userId p) (Doc.name p) (Doc.expertise p)
    (Doc.interests p) (Doc.pastExperience p) Doc.verified (Doc.gender p)
    (Doc.followers p) (Doc.following p).

(** The profile [p] with one more follower. *)
Definition followed_by (user : N) (p : Doc.ProfileDoc N) : Doc.ProfileDoc N :=
  Doc.mkProfileDoc (Doc._id p) (Doc.userId p) (Doc.name p) (Doc.expertise p)
    (Doc.interests p) (Doc.pastExperience p) (Doc.verificationStatus p) (Doc.gender p)
    (Doc.followers p ++ [user]) (Doc.following p).

(** A document at rest, as the identifiers of a document held. *)
Definition encode (p : Doc.ProfileDoc Js.ObjectId) : Doc.ProfileDoc N :=
  Doc.mkProfileDoc (Doc._id p) (Js.hex (Doc.userId p)) (Doc.name p) (Doc.expertise p)
    (Doc.interests p) (Doc.pastExperience p) (Doc.verificationStatus p) (Doc.gender p)
    (map Js.hex (Doc.followers p)) (map Js.hex (Doc.following p)).

(** [followUser(user, target)] called [k] times in a row. *)
Fixpoint follow_times (k : nat) (user target : Js.ObjectId) (rt : Runtime) : Runtime :=
  match k with
  | O => rt
  | S k' => after (followUser user target) (follow_times k' user target rt)
  end.

(** Bob has a profile and Carol, who has none, holds an object for her
    identifier. *)
Definition bob_and_visitor : Runtime := after (newObjectId Scenario.carol) Scenario.only_bob.
Definition bob_there : Js.ObjectId := Js.mkObjectId 0 Scenario.bob.
Definition visitor : Js.ObjectId := Js.mkObjectId 1 Scenario.carol.

End Profiles.

(* ===================================================================== *)
(** ** Objects and arrays                                                 *)
(* ===================================================================== *)

Import Run Profile.

(** Decoding gives back the stored identifiers. *)
Lemma hex_objects (vs : list N) (h : nat) : map Js.hex (Js.objects h vs) = vs.
Proof.
  revert h; induction vs as [|v vs IH]; intro h; simpl; [reflexivity|].
  now rewrite IH.
Qed.

(** Every object of [Js.objects h vs] lives at [h] or above. *)
Lemma objects_above (vs : list N) (h : nat) (o : Js.ObjectId) :
  In o (Js.objects h vs) -> h <= Js.addr o.
Proof.
  revert h; induction vs as [|v vs IH]; intros h Hin; simpl in Hin; [contradiction|].
  destruct Hin as [<-|Hin]; simpl; [lia|].
  apply IH in Hin; lia.
Qed.

(** An object made before a document was read is none of the objects the
    read built: [includes] on the array just read says no. *)
Lemma includes_objects_older (vs : list N) (h : nat) (x : Js.ObjectId) :
  Js.addr x < h -> Js.includes (Js.objects h vs) x = false.
Proof.
  intro Hlt. unfold Js.includes.
  destruct (existsb _ _) eqn:E; [|reflexivity].
  apply existsb_exists in E. destruct E as [o [Hin Heq]].
  apply objects_above in Hin. unfold Js.sameValueZero in Heq.
  apply Nat.eqb_eq in Heq. lia.
Qed.

(** Looking for the identifier instead, with [equals] as [leaveChat] of
    [chat.ts] does, finds a stored member. *)
Lemma equals_finds_member (vs : list N) (h : nat) (x : Js.ObjectId) :
  existsb (fun y => Js.equals y x) (Js.objects h vs) = true <-> In (Js.hex x) vs.
Proof.
  rewrite existsb_exists. split.
  - intros [o [Hin Heq]]. apply N.eqb_eq in Heq. rewrite <- Heq.
    rewrite <- (hex_objects vs h). now apply in_map.
  - intro Hin. rewrite <- (hex_objects vs h) in Hin.
    apply in_map_iff in Hin. destruct Hin as [o [Heq Hin]].
    exists o. split; [exact Hin|]. now apply N.eqb_eq.
Qed.

(* ===================================================================== *)
(** ** The collection: first match and update of the first match          *)
(* ===================================================================== *)

Lemma set_fields_userId (u : Doc.PartialProfileDoc N) (d : Doc.ProfileDoc N) :
  Doc.p_userId u = None -> Doc.userId (Doc.set_fields u d) = Doc.userId d.
Proof. intro H. unfold Doc.set_fields; simpl. now rewrite H. Qed.

(** After an update that keeps [userId], the profile of [x] is the old
    one, updated when [x] is the identifier the update looked for. *)
Lemma find_update_first (u : Doc.PartialProfileDoc N) (x y : N) (l : list (Doc.ProfileDoc N)) :
  Doc.p_userId u = None ->
  find (owned_by x) (Doc.update_first (owned_by y) u l) =
  if (x =? y)%N then option_map (Doc.set_fields u) (find (owned_by y) l)
  else find (owned_by x) l.
Proof.
  intro Hu. induction l as [|d l IH]; cbn [find Doc.update_first].
  - now destruct (x =? y)%N.
  - assert (Hset : owned_by x (Doc.set_fields u d) = owned_by x d)
      by (unfold owned_by; now rewrite set_fields_userId).
    destruct (owned_by y d) eqn:Ey; cbn [find].
    + rewrite Hset. unfold owned_by in Ey |- *. apply N.eqb_eq in Ey.
      destruct (N.eqb_spec x y) as [->|Hxy].
      * rewrite Ey, N.eqb_refl. reflexivity.
      * destruct (N.eqb_spec (Doc.userId d) x); [congruence|reflexivity].
    + rewrite IH. unfold owned_by in Ey |- *. apply N.eqb_neq in Ey.
      destruct (N.eqb_spec x y) as [->|Hxy].
      * destruct (N.eqb_spec (Doc.userId d) y); [contradiction|reflexivity].
      * reflexivity.
Qed.

(** An update relates each old document to the new one at its place, as
    soon as it relates a document to itself and the first accepted one to
    its update. *)
Lemma update_first_Forall2 (R : Doc.ProfileDoc N -> Doc.ProfileDoc N -> Prop)
  (f : Doc.Filter) (u : Doc.PartialProfileDoc N) (l : list (Doc.ProfileDoc N)) :
  (forall d, R d d) ->
  (forall d, find f l = Some d -> R d (Doc.set_fields u d)) ->
  Forall2 R l (Doc.update_first f u l).
Proof.
  intros Hrefl. induction l as [|d l IH]; intro Hupd; simpl; [constructor|].
  simpl in Hupd. destruct (f d) eqn:E.
  - constructor; [now apply Hupd|]. clear IH Hupd. induction l; constructor; auto.
  - constructor; auto.
Qed.

Lemma Forall2_compose {A : Type} (R1 R2 R : A -> A -> Prop) (l1 l2 l3 : list A) :
  (forall a b c, R1 a b -> R2 b c -> R a c) ->
  Forall2 R1 l1 l2 -> Forall2 R2 l2 l3 -> Forall2 R l1 l3.
Proof.
  intros Hc H12. revert l3. induction H12 as [|a b l1 l2 Hab _ IH]; intros l3 H23.
  - inversion H23; constructor.
  - inversion H23; subst. constructor; eauto.
Qed.

(* ===================================================================== *)
(** ** One call of [followUser]                                           *)
(* ===================================================================== *)

Lemma extends_refl {A : Type} (l : list A) : extends l l.
Proof. exists []. now rewrite app_nil_r. Qed.

Lemma extends_trans {A : Type} (l1 l2 l3 : list A) :
  extends l1 l2 -> extends l2 l3 -> extends l1 l3.
Proof. intros [k1 ->] [k2 ->]. exists (k1 ++ k2). now rewrite app_assoc. Qed.

Lemma framed_refl (u t : N) (d : Doc.ProfileDoc N) : framed u t d d.
Proof. constructor; auto using extends_refl. Qed.

Lemma framed_trans (u t : N) (d1 d2 d3 : Doc.ProfileDoc N) :
  framed u t d1 d2 -> framed u t d2 d3 -> framed u t d1 d3.
Proof.
  intros H12 H23.
  pose proof (framed_userId H12) as Eid.
  constructor.
  - rewrite (framed_id H23). apply (framed_id H12).
  - rewrite (framed_userId H23). exact Eid.
  - rewrite (framed_name H23). apply (framed_name H12).
  - rewrite (framed_expertise H23). apply (framed_expertise H12).
  - rewrite (framed_interests H23). apply (framed_interests H12).
  - rewrite (framed_pastExperience H23). apply (framed_pastExperience H12).
  - rewrite (framed_verificationStatus H23). apply (framed_verificationStatus H12).
  - rewrite (framed_gender H23). apply (framed_gender H12).
  - eapply extends_trans; [apply (framed_followers H12)|apply (framed_followers H23)].
  - eapply extends_trans; [apply (framed_following H12)|apply (framed_following H23)].
  - intro H. rewrite (framed_followers_target H23) by congruence.
    now apply (framed_followers_target H12).
  - intro H. rewrite (framed_following_user H23) by congruence.
    now apply (framed_following_user H12).
Qed.

(** A document of neither the user nor the target comes out unchanged. *)
Lemma framed_third (u t : N) (d d' : Doc.ProfileDoc N) :
  framed u t d d' -> Doc.userId d <> u -> Doc.userId d <> t -> d' = d.
Proof.
  intros H Hu Ht.
  pose proof (framed_followers_target H Ht). pose proof (framed_following_user H Hu).
  destruct H, d, d'; cbn in *; congruence.
Qed.

Lemma framed_stored_refl (u t : N) (l : list (Doc.ProfileDoc N)) : Forall2 (framed u t) l l.
Proof. induction l; constructor; auto using framed_refl. Qed.

Lemma framed_new_follower (u : N) (k : list N) (t : N) (d : Doc.ProfileDoc N) :
  Doc.userId d = t ->
  framed u t d (Doc.set_fields (Doc.mkPartial None None None None None None None (Some (Doc.followers d ++ k)) None) d).
Proof.
  intro H. constructor; cbn; auto using extends_refl.
  - now exists k.
  - intro; contradiction.
Qed.

Lemma framed_new_following (t : N) (k : list N) (u : N) (d : Doc.ProfileDoc N) :
  Doc.userId d = u ->
  framed u t d (Doc.set_fields (Doc.mkPartial None None None None None None None None (Some (Doc.following d ++ k))) d).
Proof.
  intro H. constructor; cbn; auto using extends_refl.
  - now exists k.
  - intro; contradiction.
Qed.

Lemma found_owned (x : N) (l : list (Doc.ProfileDoc N)) (d : Doc.ProfileDoc N) :
  find (owned_by x) l = Some d -> Doc.userId d = x.
Proof. intro H. apply find_some in H. destruct H as [_ H]. now apply N.eqb_eq in H. Qed.

Lemma encode_only_followers (l : list Js.ObjectId) :
  Doc.encode_partial (only_followers l) =
  Doc.mkPartial None None None None None None None (Some (map Js.hex l)) None.
Proof. reflexivity. Qed.

Lemma encode_only_following (l : list Js.ObjectId) :
  Doc.encode_partial (only_following l) =
  Doc.mkPartial None None None None None None None None (Some (map Js.hex l)).
Proof. reflexivity. Qed.

Lemma when_update (b : bool) (f : Doc.Filter) (upd : Doc.PartialProfileDoc Js.ObjectId) (rt : Runtime) :
  when b (partialUpdateOne f upd) rt =
  (Ok tt, mkRuntime (heap_top rt)
            (if b then Doc.partialUpdateOne f (Doc.encode_partial upd) (profiles rt)
             else profiles rt)).
Proof. destruct b; [reflexivity|]. now destruct rt. Qed.

(** C10. Frame of [followUser(user, target)]: the collection keeps its
    documents in place, and each of them keeps [_id], [userId], [name],
    [expertise], [interests], [pastExperience], [verificationStatus] and
    [gender]; its [followers] and [following] arrays keep their elements
    in order, with at most new ones at the end; [followers] changes only
    in a document of the target, [following] only in a document of the
    user, so a document of a third identifier is left as it was. *)
Theorem followUser_frame (u t : Js.ObjectId) (rt : Runtime) :
  Forall2 (framed (Js.hex u) (Js.hex t)) (stored rt) (stored (after (followUser u t) rt)).
Proof.
  unfold stored, after, followUser, bind, readOne, by_userId.
  destruct (Doc.readOne (owned_by (Js.hex t)) (profiles rt)) as [pt|] eqn:Hpt;
    [|apply framed_stored_refl].
  unfold Doc.readOne in Hpt.
  rewrite when_update. cbn [profiles heap_top].
  match goal with |- context [Doc.readOne _ ?c] => set (c1 := c) end.
  assert (H1 : Forall2 (framed (Js.hex u) (Js.hex t)) (Doc.docs (profiles rt)) (Doc.docs c1)).
  { subst c1. destruct (negb _); cbn; [|apply framed_stored_refl].
    apply update_first_Forall2; [apply framed_refl|].
    intros d Hd. rewrite Hpt in Hd. injection Hd as <-.
    unfold Js.push. rewrite encode_only_followers, map_app, hex_objects.
    apply (framed_new_follower (Js.hex u) [Js.hex u]).
    eapply found_owned; eassumption. }
  clearbody c1.
  destruct (Doc.readOne (owned_by (Js.hex u)) c1) as [cu|] eqn:Hcu; cbn [ret snd profiles]; [|exact H1].
  rewrite when_update. cbn [snd profiles].
  eapply Forall2_compose; [apply framed_trans|exact H1|].
  destruct (negb _); cbn; [|apply framed_stored_refl].
  apply update_first_Forall2; [apply framed_refl|].
  intros d Hd. unfold Doc.readOne in Hcu. rewrite Hcu in Hd. injection Hd as <-.
  unfold Js.push. rewrite encode_only_following, map_app, hex_objects.
  apply (framed_new_following (Js.hex t) [Js.hex t]).
  eapply found_owned; eassumption.
Qed.

(** Without a profile for the target the call throws at once. *)
Lemma followUser_missing (u t : Js.ObjectId) (rt : Runtime) :
  profile_of rt (Js.hex t) = None ->
  followUser u t rt = (Throw (ProfileNotFoundError t), rt).
Proof.
  intro H. unfold followUser, bind, readOne, by_userId.
  unfold profile_of in H. rewrite H. reflexivity.
Qed.

Lemma bump_other (u t x : N) (p : Doc.ProfileDoc N) :
  x <> t -> x <> u -> bump u t x p = p.
Proof.
  intros Ht Hu. unfold bump.
  destruct (N.eqb_spec x t); [contradiction|].
  destruct (N.eqb_spec x u); [contradiction|].
  rewrite !app_nil_r. now destruct p.
Qed.

Ltac settle :=
  cbn; unfold bump, Js.push, Doc.set_fields, Doc.encode_partial, only_followers, only_following;
  cbn; rewrite ?N.eqb_refl, ?map_app, ?hex_objects, ?app_nil_r;
  cbn; try reflexivity.

(** With a profile for the target, and objects made before the call, the
    call returns and every profile is [bump]ed: both [includes] tests look
    for the caller's objects among objects built by the read just done,
    and find none. *)
Lemma followUser_found (u t : Js.ObjectId) (rt : Runtime) (pt : Doc.ProfileDoc N) :
  live rt u -> live rt t -> profile_of rt (Js.hex t) = Some pt ->
  outcome (followUser u t) rt = Ok followed /\
  forall x, profile_of (after (followUser u t) rt) x =
            option_map (bump (Js.hex u) (Js.hex t) x) (profile_of rt x).
Proof.
  intros Hu Ht Hpt. unfold live in *.
  unfold outcome, after, followUser, bind, readOne, by_userId.
  unfold profile_of in Hpt |- *. rewrite Hpt.
  cbn [Doc.decode Doc.followers].
  rewrite includes_objects_older by lia.
  cbn [negb when partialUpdateOne profiles heap_top].
  unfold Doc.readOne, Doc.partialUpdateOne in *. cbn [Doc.docs].
  rewrite find_update_first by reflexivity.
  destruct (N.eqb_spec (Js.hex u) (Js.hex t)) as [Eut|Eut].
  - (* the user follows themselves: one document, written twice *)
    rewrite Hpt. cbn [option_map Doc.decode Doc.following Doc.set_fields].
    rewrite includes_objects_older by (cbn; lia).
    cbn [negb when partialUpdateOne profiles heap_top ret fst snd Doc.partialUpdateOne Doc.docs].
    split; [reflexivity|]. intro x.
    rewrite !find_update_first by reflexivity.
    rewrite Eut, Hpt.
    destruct (N.eqb_spec x (Js.hex t)) as [->|Ex].
    + rewrite Hpt. settle. now rewrite Eut.
    + destruct (find (owned_by x) _) as [p|]; [|reflexivity].
      cbn [option_map]. rewrite bump_other by assumption. reflexivity.
  - destruct (find (owned_by (Js.hex u)) (Doc.docs (profiles rt))) as [cu|] eqn:Hcu.
    + cbn [Doc.decode Doc.following].
      rewrite includes_objects_older by (cbn; lia).
      cbn [negb when partialUpdateOne profiles heap_top ret fst snd Doc.partialUpdateOne Doc.docs].
      split; [reflexivity|]. intro x.
      rewrite !find_update_first by reflexivity.
      destruct (N.eqb_spec x (Js.hex u)) as [->|Exu].
      * destruct (N.eqb_spec (Js.hex u) (Js.hex t)); [contradiction|].
        rewrite Hcu. unfold bump.
        destruct (N.eqb_spec (Js.hex u) (Js.hex t)); [contradiction|]. settle.
      * destruct (N.eqb_spec x (Js.hex t)) as [->|Ext].
        -- rewrite Hpt. unfold bump.
           destruct (N.eqb_spec (Js.hex t) (Js.hex u)); [congruence|]. settle.
        -- destruct (find (owned_by x) _) as [p|]; [|reflexivity].
           cbn [option_map]. rewrite bump_other by assumption. reflexivity.
    + cbn [ret fst snd profiles Doc.docs].
      split; [reflexivity|]. intro x.
      rewrite !find_update_first by reflexivity.
      destruct (N.eqb_spec x (Js.hex t)) as [->|Ext].
      * rewrite Hpt. unfold bump.
        destruct (N.eqb_spec (Js.hex t) (Js.hex u)); [congruence|]. settle.
      * destruct (N.eqb_spec x (Js.hex u)) as [->|Exu].
        -- rewrite Hcu. reflexivity.
        -- destruct (find (owned_by x) _) as [p|]; [|reflexivity].
           cbn [option_map]. rewrite bump_other by assumption. reflexivity.
Qed.

(* ===================================================================== *)
(** ** The follow graph: properties of the specification                  *)
(* ===================================================================== *)

Lemma profile_of_new (id x : N) (rt : Runtime) :
  profile_of (after (newObjectId id) rt) x = profile_of rt x.
Proof. reflexivity. Qed.

Lemma symmetric_follow (u t : Js.ObjectId) (rt : Runtime) :
  live rt u -> live rt t -> symmetric rt -> symmetric (after (followUser u t) rt).
Proof.
  intros Hu Ht Hsym.
  destruct (profile_of rt (Js.hex t)) as [pt|] eqn:Hpt.
  - destruct (followUser_found Hu Ht Hpt) as [_ Hprof].
    intros A B pa' pb' Ha Hb. rewrite Hprof in Ha, Hb.
    destruct (profile_of rt A) as [pa|] eqn:Hpa; [|discriminate].
    destruct (profile_of rt B) as [pb|] eqn:Hpb; [|discriminate].
    injection Ha as <-. injection Hb as <-.
    specialize (Hsym A B pa pb Hpa Hpb).
    unfold bump; cbn [Doc.followers Doc.following].
    rewrite !in_app_iff, Hsym.
    destruct (N.eqb_spec B (Js.hex t)) as [->|HB];
      destruct (N.eqb_spec A (Js.hex u)) as [->|HA]; simpl; intuition congruence.
  - unfold after. rewrite (followUser_missing u t rt Hpt). exact Hsym.
Qed.

(** C1. Symmetry invariant: from a runtime where it holds, after any
    sequence of calls of [followUser] (successful or not), for every two
    identifiers [A] and [B] that have a profile, [A] is among the
    followers of [B] exactly when [B] is among those [A] follows. *)
Theorem followUser_keeps_symmetry (rt rt' : Runtime) :
  follows rt rt' -> symmetric rt -> symmetric rt'.
Proof.
  intros Hrun Hsym. induction Hrun as [|rt' id _ IH|rt' u t _ IH Hu Ht].
  - exact Hsym.
  - intros A B pa pb. rewrite !profile_of_new. apply IH.
  - now apply symmetric_follow.
Qed.

(** Profiles whose arrays are all empty are symmetric. *)
Lemma symmetric_blank (rt : Runtime) :
  (forall d, In d (stored rt) -> Doc.followers d = [] /\ Doc.following d = []) ->
  symmetric rt.
Proof.
  intros Hblank A B pa pb Ha Hb.
  apply find_some in Ha, Hb. destruct Ha as [Ha _], Hb as [Hb _].
  destruct (Hblank pa Ha) as [_ ->]. destruct (Hblank pb Hb) as [-> _].
  simpl; tauto.
Qed.

Lemma followUser_keeps_symmetry_witness :
  symmetric Scenario.signed_up /\
  symmetric (after (followUser Scenario.bob_object Scenario.alice_object)
               (after (followUser Scenario.alice_object Scenario.bob_object)
                  Scenario.signed_up)).
Proof.
  assert (H0 : symmetric Scenario.signed_up).
  { apply symmetric_blank. intros d [<-|[<-|[]]]; split; reflexivity. }
  split; [exact H0|].
  apply (@followUser_keeps_symmetry Scenario.signed_up); [|exact H0].
  apply follows_call; [apply follows_call; [apply follows_start| |]| |];
    unfold live; simpl; lia.
Defined.

(** C2, at the failing input.  Alice follows Bob twice, from empty
    arrays: after the first call Bob's followers are [[alice]], after the
    second they are [[alice; alice]]; likewise for those Alice follows. *)
Theorem follow_twice_duplicates :
  let once := after (Scenario.follow Scenario.alice Scenario.bob) Scenario.signed_up in
  let twice := after (Scenario.follow Scenario.alice Scenario.bob) once in
  Scenario.followers_of Scenario.bob Scenario.signed_up = Some [] /\
  Scenario.followers_of Scenario.bob once = Some [Scenario.alice] /\
  Scenario.following_of Scenario.alice once = Some [Scenario.bob] /\
  Scenario.followers_of Scenario.bob twice = Some [Scenario.alice; Scenario.alice] /\
  Scenario.following_of Scenario.alice twice = Some [Scenario.bob; Scenario.bob].
Proof. vm_compute. repeat split. Qed.

(** C3, counterexample.  Carol has no profile and Bob has one:
    [followUser(carol, bob)] returns its success message, and Carol is
    now among Bob's followers. *)
Lemma follow_without_own_profile :
  profile_of Scenario.only_bob Scenario.carol = None /\
  outcome (Scenario.follow Scenario.carol Scenario.bob) Scenario.only_bob = Ok followed /\
  Scenario.followers_of Scenario.bob
    (after (Scenario.follow Scenario.carol Scenario.bob) Scenario.only_bob)
  = Some [Scenario.carol].
Proof. vm_compute. repeat split. Qed.

(** C3, amended.  [followUser(user, target)] throws
    [ProfileNotFoundError] (for the target) when the target has no
    profile, and returns its success message otherwise, whether or not
    the user has a profile. *)
Theorem followUser_throws_iff_target_missing (u t : Js.ObjectId) (rt : Runtime) :
  outcome (followUser u t) rt =
  match profile_of rt (Js.hex t) with
  | None => Throw (ProfileNotFoundError t)
  | Some _ => Ok followed
  end.
Proof.
  destruct (profile_of rt (Js.hex t)) as [pt|] eqn:Hpt.
  - unfold outcome, followUser, bind, readOne, by_userId.
    unfold profile_of in Hpt. rewrite Hpt.
    rewrite when_update.
    destruct (Doc.readOne (owned_by (Js.hex u)) _); [rewrite when_update|]; reflexivity.
  - unfold outcome. now rewrite followUser_missing.
Qed.

(** C4, counterexample.  Alice follows herself: the call returns its
    success message and her profile lists her as follower and followed. *)
Lemma self_follow_succeeds :
  let rt' := after (Scenario.follow Scenario.alice Scenario.alice) Scenario.signed_up in
  outcome (Scenario.follow Scenario.alice Scenario.alice) Scenario.signed_up = Ok followed /\
  Scenario.followers_of Scenario.alice Scenario.signed_up = Some [] /\
  Scenario.followers_of Scenario.alice rt' = Some [Scenario.alice] /\
  Scenario.following_of Scenario.alice rt' = Some [Scenario.alice].
Proof. vm_compute. repeat split. Qed.

(** C4, amended.  [followUser(A, A)] is not rejected: with a profile for
    [A] it returns its success message and [A] is then among its own
    followers and among those it follows; without one it throws
    [ProfileNotFoundError] and leaves the runtime as it was. *)
Theorem self_follow (a : Js.ObjectId) (rt : Runtime) :
  live rt a ->
  match profile_of rt (Js.hex a) with
  | Some _ =>
      outcome (followUser a a) rt = Ok followed /\
      exists p', profile_of (after (followUser a a) rt) (Js.hex a) = Some p' /\
                 In (Js.hex a) (Doc.followers p') /\ In (Js.hex a) (Doc.following p')
  | None => followUser a a rt = (Throw (ProfileNotFoundError a), rt)
  end.
Proof.
  intro Ha. destruct (profile_of rt (Js.hex a)) as [p|] eqn:Hp.
  - destruct (followUser_found Ha Ha Hp) as [Hok Hprof]. split; [exact Hok|].
    exists (bump (Js.hex a) (Js.hex a) (Js.hex a) p). rewrite Hprof, Hp.
    split; [reflexivity|]. unfold bump; cbn [Doc.followers Doc.following].
    rewrite N.eqb_refl, !in_app_iff. simpl; auto.
  - now apply followUser_missing.
Qed.

Lemma self_follow_witness :
  live Scenario.signed_up Scenario.alice_object /\
  outcome (followUser Scenario.alice_object Scenario.alice_object) Scenario.signed_up = Ok followed.
Proof.
  assert (Hlive : live Scenario.signed_up Scenario.alice_object)
    by (unfold live; simpl; lia).
  split; [exact Hlive|].
  exact (proj1 (@self_follow Scenario.alice_object Scenario.signed_up Hlive)).
Defined.

(** C5. When [followUser] throws, the error is [ProfileNotFoundError] for
    the target and the runtime, stored profiles included, is what it was
    before the call. *)
Theorem followUser_throw_unchanged (u t : Js.ObjectId) (rt : Runtime) (e : Error) :
  outcome (followUser u t) rt = Throw e ->
  e = ProfileNotFoundError t /\ after (followUser u t) rt = rt.
Proof.
  rewrite followUser_throws_iff_target_missing.
  destruct (profile_of rt (Js.hex t)) eqn:Hpt; [discriminate|].
  intro H. injection H as <-. split; [reflexivity|].
  unfold after. now rewrite followUser_missing.
Qed.

Lemma followUser_throw_unchanged_witness :
  outcome (followUser Scenario.bob_object Scenario.carol_object) Scenario.carol_visits
  = Throw (ProfileNotFoundError Scenario.carol_object) /\
  ProfileNotFoundError Scenario.carol_object = ProfileNotFoundError Scenario.carol_object /\
  after (followUser Scenario.bob_object Scenario.carol_object) Scenario.carol_visits
  = Scenario.carol_visits.
Proof.
  split; [reflexivity|].
  exact (@followUser_throw_unchanged Scenario.bob_object Scenario.carol_object
           Scenario.carol_visits (ProfileNotFoundError Scenario.carol_object) eq_refl).
Defined.

(** C6, at the failing input.  Alice already follows Bob and follows him
    again: the call returns its success message, and a second copy of
    Alice is appended to Bob's followers, a second copy of Bob to those
    Alice follows. *)
Theorem refollow_appends_again :
  let rt' := after (Scenario.follow Scenario.alice Scenario.bob) Scenario.alice_follows_bob in
  Scenario.followers_of Scenario.bob Scenario.alice_follows_bob = Some [Scenario.alice] /\
  Scenario.following_of Scenario.alice Scenario.alice_follows_bob = Some [Scenario.bob] /\
  outcome (Scenario.follow Scenario.alice Scenario.bob) Scenario.alice_follows_bob = Ok followed /\
  Scenario.followers_of Scenario.bob rt' = Some [Scenario.alice; Scenario.alice] /\
  Scenario.following_of Scenario.alice rt' = Some [Scenario.bob; Scenario.bob].
Proof. vm_compute. repeat split. Qed.

(** Whatever the arrays held, a call on objects made earlier appends:
    the user to the target's followers, the target to those the user
    follows. *)
Lemma followUser_appends (u t : Js.ObjectId) (rt : Runtime) (pt pu : Doc.ProfileDoc N) :
  live rt u -> live rt t ->
  profile_of rt (Js.hex t) = Some pt -> profile_of rt (Js.hex u) = Some pu ->
  exists pt' pu',
    profile_of (after (followUser u t) rt) (Js.hex t) = Some pt' /\
    profile_of (after (followUser u t) rt) (Js.hex u) = Some pu' /\
    Doc.followers pt' = Doc.followers pt ++ [Js.hex u] /\
    Doc.following pu' = Doc.following pu ++ [Js.hex t].
Proof.
  intros Hu Ht Hpt Hpu. destruct (followUser_found Hu Ht Hpt) as [_ Hprof].
  exists (bump (Js.hex u) (Js.hex t) (Js.hex t) pt), (bump (Js.hex u) (Js.hex t) (Js.hex u) pu).
  rewrite !Hprof, Hpt, Hpu. unfold bump; cbn [Doc.followers Doc.following option_map].
  rewrite !N.eqb_refl. auto.
Qed.

(** C7. [getFollowers(userId)] and [getFollowing(userId)] leave the
    collection as it is; with a profile for [userId] they return the
    identifiers of its [followers], respectively [following], array in
    order, and without one they throw [ProfileNotFoundError]. *)
Theorem getters_are_reads (u : Js.ObjectId) (rt : Runtime) :
  profiles (after (getFollowers u) rt) = profiles rt /\
  profiles (after (getFollowing u) rt) = profiles rt /\
  match profile_of rt (Js.hex u) with
  | Some p =>
      (exists l, outcome (getFollowers u) rt = Ok l /\ map Js.hex l = Doc.followers p) /\
      (exists l, outcome (getFollowing u) rt = Ok l /\ map Js.hex l = Doc.following p)
  | None =>
      outcome (getFollowers u) rt = Throw (ProfileNotFoundError u) /\
      outcome (getFollowing u) rt = Throw (ProfileNotFoundError u)
  end.
Proof.
  unfold after, outcome, getFollowers, getFollowing, bind, readOne, by_userId, profile_of.
  destruct (Doc.readOne (owned_by (Js.hex u)) (profiles rt)) as [p|]; cbn.
  - repeat split; eexists; (split; [reflexivity|apply hex_objects]).
  - repeat split.
Qed.

(** C9. [createProfile] adds one document, last in the collection, whose
    [followers] and [following] are empty and whose
    [verificationStatus] is [unverified], whatever the arguments; the
    other fields are the arguments. *)
Theorem createProfile_initial (userId : Js.ObjectId) (name : string)
  (expertise interests pastExperience : list string) (gender : string) (rt : Runtime) :
  exists d,
    stored (after (createProfile userId name expertise interests pastExperience gender) rt)
    = stored rt ++ [d] /\
    Doc.followers d = [] /\ Doc.following d = [] /\
    Doc.verificationStatus d = Doc.unverified /\
    Doc.userId d = Js.hex userId /\ Doc.name d = name /\
    Doc.expertise d = expertise /\ Doc.interests d = interests /\
    Doc.pastExperience d = pastExperience /\ Doc.gender d = gender.
Proof.
  eexists. unfold stored, after, createProfile, createOne, Doc.createOne. cbn.
  repeat split.
Qed.

(* ===================================================================== *)
(** ** The friend-request store                                           *)
(* ===================================================================== *)

Module FriendingFacts.

Import Friending.

Lemma is_request_ends (f t : Identity) (r : FriendRequest) :
  is_request f t r = true <-> ends r = (f, t).
Proof.
  unfold is_request, ends. rewrite andb_true_iff, !N.eqb_eq.
  split; [intros [-> ->]; reflexivity|intro H; injection H; auto].
Qed.

Lemma discard_subset {A : Type} (p : A -> bool) (l : list A) (x : A) :
  In x (discard p l) -> In x l.
Proof.
  induction l as [|y l IH]; simpl; [auto|].
  destruct (p y); simpl; intuition.
Qed.

Lemma discard_exclusive (p : FriendRequest -> bool) (l : list FriendRequest) :
  NoDup (map ends l) -> NoDup (map ends (discard p l)).
Proof.
  induction l as [|y l IH]; simpl; intro H; [constructor|].
  inversion H as [|? ? Hnot Hrest]; subst.
  destruct (p y); [exact Hrest|]. simpl. constructor; [|auto].
  intro Hin. apply Hnot. apply in_map_iff in Hin. destruct Hin as [r [Er Hr]].
  apply in_map_iff. exists r. split; [exact Er|]. eapply discard_subset; eassumption.
Qed.

(** In an exclusive list, discarding the request [f -> t] leaves none. *)
Lemma discard_consumes (f t : Identity) (l : list FriendRequest) (r : FriendRequest) :
  NoDup (map ends l) -> In r (discard (is_request f t) l) -> ends r <> (f, t).
Proof.
  induction l as [|y l IH]; simpl; intros H Hin; [contradiction|].
  inversion H as [|? ? Hnot Hrest]; subst.
  destruct (is_request f t y) eqn:E.
  - apply is_request_ends in E. intro Er. apply Hnot. rewrite E, <- Er.
    now apply in_map.
  - destruct Hin as [<-|Hin]; [|auto].
    intro Er. apply is_request_ends in Er. congruence.
Qed.

Lemma no_request_not_in (f t : Identity) (l : list FriendRequest) :
  existsb (is_request f t) l = false -> ~ In (f, t) (map ends l).
Proof.
  intros H Hin. apply in_map_iff in Hin. destruct Hin as [r [Er Hr]].
  assert (existsb (is_request f t) l = true); [|congruence].
  apply existsb_exists. exists r. split; [exact Hr|]. now apply is_request_ends.
Qed.

Lemma step_exclusive (s s' : State) : step s s' -> exclusive s -> exclusive s'.
Proof.
  unfold exclusive.
  intros [f t i s1 H|f t s1 H|f t s1 H|f t s1 H|u f s1 H] Hex.
  - unfold sendRequest in H.
    destruct (f =? t)%N; [discriminate|].
    destruct (existsb (is_edge f t) _); [discriminate|].
    destruct (existsb (is_request f t) (requests s)) eqn:E; [discriminate|].
    destruct (existsb (is_request t f) (requests s)); [discriminate|].
    injection H as _ <-. cbn [requests].
    rewrite map_app. cbn [map]. unfold ends at 2; cbn [from to].
    apply NoDup_app; [exact Hex|repeat constructor; simpl; tauto|].
    intros x Hx [<-|[]]. revert Hx. now apply no_request_not_in.
  - unfold removeRequest in H. destruct (existsb _ _); [|discriminate].
    injection H as <-. now apply discard_exclusive.
  - unfold acceptRequest in H. destruct (existsb _ _); [|discriminate].
    injection H as <-. now apply discard_exclusive.
  - unfold rejectRequest in H. destruct (existsb _ _); [|discriminate].
    injection H as <-. now apply discard_exclusive.
  - unfold removeFriend in H. destruct (existsb _ _); [|discriminate].
    injection H as <-. exact Hex.
Qed.

Lemma reachable_exclusive (s : State) : reachable s -> exclusive s.
Proof.
  induction 1 as [|s s' _ IH Hstep]; [constructor|].
  eapply step_exclusive; eassumption.
Qed.

Lemma ends_with_app (user : Identity) (es es' : list (Identity * Identity)) :
  ends_with user (es ++ es') = ends_with user es ++ ends_with user es'.
Proof.
  induction es as [|e es IH]; simpl; [reflexivity|].
  destruct (other_end user e); simpl; now rewrite IH.
Qed.

Lemma friends_after_edge (a b : Identity) (es : list (Identity * Identity)) :
  In b (ends_with a (es ++ [(a, b)])) /\ In a (ends_with b (es ++ [(a, b)])).
Proof.
  rewrite !ends_with_app, !in_app_iff. split; right; simpl; unfold other_end; simpl.
  - rewrite N.eqb_refl. simpl; auto.
  - destruct (N.eqb_spec a b) as [->|]; [simpl; auto|].
    rewrite N.eqb_refl. simpl; auto.
Qed.

(** C8. In a state the operations can reach, once [acceptRequest(A, B)]
    has succeeded, no request from [A] is left in [getRequests(B)],
    [getFriends(A)] contains [B] and [getFriends(B)] contains [A]. *)
Theorem accept_consumes_request (A B : Identity) (s s' : State) :
  reachable s ->
  acceptRequest A B s = inr (tt, s') ->
  (forall r, In r (getRequests B s') -> from r <> A) /\
  In B (getFriends A s') /\
  In A (getFriends B s').
Proof.
  intros Hreach Hacc. apply reachable_exclusive in Hreach.
  unfold acceptRequest in Hacc. destruct (existsb _ _); [|discriminate].
  injection Hacc as <-. unfold getRequests, getFriends; cbn [requests friendships].
  split; [|apply friends_after_edge].
  intros r Hr Hfrom. apply filter_In in Hr. destruct Hr as [Hr Hto].
  apply N.eqb_eq in Hto.
  apply (@discard_consumes A B (requests s) r Hreach Hr).
  unfold ends. congruence.
Qed.

Lemma accept_consumes_request_witness :
  reachable Scenario.alice_asked_bob /\
  acceptRequest Scenario.alice Scenario.bob Scenario.alice_asked_bob
  = inr (tt, Scenario.bob_accepted) /\
  (forall r, In r (getRequests Scenario.bob Scenario.bob_accepted) -> from r <> Scenario.alice) /\
  In Scenario.bob (getFriends Scenario.alice Scenario.bob_accepted) /\
  In Scenario.alice (getFriends Scenario.bob Scenario.bob_accepted).
Proof.
  assert (Hreach : reachable Scenario.alice_asked_bob).
  { apply (reachable_step reachable_empty).
    apply (@step_send empty Scenario.alice Scenario.bob 0%N). reflexivity. }
  split; [exact Hreach|]. split; [reflexivity|].
  exact (@accept_consumes_request Scenario.alice Scenario.bob
           Scenario.alice_asked_bob Scenario.bob_accepted Hreach eq_refl).
Defined.

End FriendingFacts.

(* ===================================================================== *)
(** ** The route to [acceptRequest]                                       *)
(* ===================================================================== *)

(** [PUT /friend/accept/:from] reaches [Friending.acceptRequest] with the
    resolved sender first and the session's user second. *)
Lemma acceptFriendRequest_calls (SessionDoc : Type)
  (getUser : SessionDoc -> option Friending.Identity)
  (getUserByUsername : string -> option Friending.Identity)
  (session : SessionDoc) (from : string) (s : Friending.State)
  (o : Friending.Outcome unit) :
  Routes.acceptFriendRequest getUser getUserByUsername session from s = Some o ->
  exists user fromOid,
    getUser session = Some user /\ getUserByUsername from = Some fromOid /\
    o = Friending.acceptRequest fromOid user s.
Proof.
  unfold Routes.acceptFriendRequest.
  destruct (getUser session) as [user|]; [|discriminate].
  destruct (getUserByUsername from) as [fromOid|]; [|discriminate].
  intro H. injection H as <-. now exists user, fromOid.
Qed.

(* ===================================================================== *)
(** ** Collections of any schema                                          *)
(* ===================================================================== *)

Section StoreFacts.

Variable Schema : Type.
Variable id_of : Schema -> N.
Variable with_id : N -> Schema -> Schema.
Hypothesis id_with_id : forall i d, id_of (with_id i d) = i.

Lemma found_has_id (i : N) (l : list Schema) (d : Schema) :
  find (Store.has_id id_of i) l = Some d -> id_of d = i.
Proof. intro H. apply find_some in H. destruct H as [_ H]. now apply N.eqb_eq in H. Qed.

(** After a replacement under [j], the document under [i] is the old one,
    or the replacement when [i] is [j] and there was one to replace. *)
Lemma find_replace_first (item : Schema) (i j : N) (l : list Schema) :
  find (Store.has_id id_of i) (Store.replace_first id_of with_id (Store.has_id id_of j) item l) =
  if (i =? j)%N
  then option_map (fun _ => with_id j item) (find (Store.has_id id_of j) l)
  else find (Store.has_id id_of i) l.
Proof.
  induction l as [|d l IH]; cbn [find Store.replace_first].
  - now destruct (i =? j)%N.
  - destruct (Store.has_id id_of j d) eqn:Ej; cbn [find].
    + unfold Store.has_id in Ej |- *. apply N.eqb_eq in Ej.
      rewrite id_with_id, Ej.
      destruct (N.eqb_spec i j) as [->|Hij].
      * now rewrite N.eqb_refl.
      * destruct (N.eqb_spec j i); [congruence|reflexivity].
    + rewrite IH. unfold Store.has_id in Ej |- *. apply N.eqb_neq in Ej.
      destruct (N.eqb_spec i j) as [->|Hij]; [|reflexivity].
      destruct (N.eqb_spec (id_of d) j); [contradiction|reflexivity].
Qed.

(** Replacing by what is already there changes nothing. *)
Lemma replace_first_same (f : Schema -> bool) (item : Schema) (l : list Schema) :
  (forall d, find f l = Some d -> with_id (id_of d) item = d) ->
  Store.replace_first id_of with_id f item l = l.
Proof.
  induction l as [|d l IH]; cbn [find Store.replace_first]; intro H; [reflexivity|].
  destruct (f d); [now rewrite H|]. now rewrite IH.
Qed.

Lemma delete_first_none (f : Schema -> bool) (l : list Schema) :
  find f l = None -> Store.delete_first f l = l.
Proof.
  induction l as [|d l IH]; cbn [find Store.delete_first]; [reflexivity|].
  destruct (f d); [discriminate|]. intro H. now rewrite IH.
Qed.

Lemma delete_first_subset (f : Schema -> bool) (l : list Schema) (d : Schema) :
  In d (Store.delete_first f l) -> In d l.
Proof.
  induction l as [|y l IH]; simpl; [auto|].
  destruct (f y); simpl; intuition.
Qed.

Lemma not_found_by_id (i : N) (l : list Schema) :
  ~ In i (map id_of l) -> find (Store.has_id id_of i) l = None.
Proof.
  intro H. destruct (find _ l) as [d|] eqn:E; [|reflexivity].
  exfalso. apply H. pose proof (@found_has_id _ _ _ E) as <-.
  apply find_some in E. apply in_map. tauto.
Qed.

(** With identifiers in use once, deleting under [i] leaves nothing
    under [i] and everything else where it was. *)
Lemma find_delete_first (i j : N) (l : list Schema) :
  NoDup (map id_of l) ->
  find (Store.has_id id_of i) (Store.delete_first (Store.has_id id_of j) l) =
  if (i =? j)%N then None else find (Store.has_id id_of i) l.
Proof.
  induction l as [|d l IH]; cbn [find Store.delete_first map]; intro Hnd.
  - now destruct (i =? j)%N.
  - inversion Hnd as [|? ? Hnot Hrest]; subst.
    destruct (Store.has_id id_of j d) eqn:Ej.
    + unfold Store.has_id in Ej. apply N.eqb_eq in Ej.
      destruct (N.eqb_spec i j) as [->|Hij].
      * apply not_found_by_id. now rewrite <- Ej.
      * unfold Store.has_id at 2. rewrite Ej.
        destruct (N.eqb_spec j i); [congruence|reflexivity].
    + cbn [find]. rewrite (IH Hrest).
      unfold Store.has_id in Ej |- *. apply N.eqb_neq in Ej.
      destruct (N.eqb_spec i j) as [->|Hij]; [|reflexivity].
      destruct (N.eqb_spec (id_of d) j); [contradiction|reflexivity].
Qed.

Lemma replace_first_ids (f : Schema -> bool) (item : Schema) (l : list Schema) :
  map id_of (Store.replace_first id_of with_id f item l) = map id_of l.
Proof.
  induction l as [|d l IH]; cbn [Store.replace_first map]; [reflexivity|].
  destruct (f d); cbn [map]; [now rewrite id_with_id|now rewrite IH].
Qed.

Lemma delete_first_NoDup (f : Schema -> bool) (l : list Schema) :
  NoDup (map id_of l) -> NoDup (map id_of (Store.delete_first f l)).
Proof.
  induction l as [|d l IH]; cbn [Store.delete_first map]; intro H; [constructor|].
  inversion H as [|? ? Hnot Hrest]; subst.
  destruct (f d); [exact Hrest|]. cbn [map]. constructor; [|auto].
  intro Hin. apply Hnot. apply in_map_iff in Hin. destruct Hin as [x [Ex Hx]].
  apply in_map_iff. exists x. split; [exact Ex|]. eapply delete_first_subset; eassumption.
Qed.

(** The three writes keep identifiers minted and in use once, as long as
    a created document carries the identifier it is given. *)
Lemma createOne_minted_ids (item : N -> Schema) (c : Store.Collection Schema) :
  (forall i, id_of (item i) = i) ->
  Store.minted_ids id_of c -> Store.minted_ids id_of (snd (Store.createOne item c)).
Proof.
  intros Hitem [Hlt Hnd]. unfold Store.minted_ids, Store.createOne; cbn. split.
  - apply Forall_app. split.
    + revert Hlt. apply Forall_impl. intros d Hd. lia.
    + constructor; [|constructor]. rewrite Hitem. lia.
  - rewrite map_app. cbn [map]. rewrite Hitem.
    apply NoDup_app; [exact Hnd|repeat constructor; simpl; tauto|].
    intros x Hx [<-|[]]. apply in_map_iff in Hx. destruct Hx as [d [Ed Hd]].
    rewrite Forall_forall in Hlt. specialize (Hlt d Hd). lia.
Qed.

Lemma replaceOne_minted_ids (f : Schema -> bool) (item : Schema) (c : Store.Collection Schema) :
  Store.minted_ids id_of c -> Store.minted_ids id_of (Store.replaceOne id_of with_id f item c).
Proof.
  intros [Hlt Hnd]. unfold Store.minted_ids, Store.replaceOne; cbn.
  rewrite replace_first_ids. split; [|exact Hnd].
  rewrite Forall_forall in Hlt |- *. intros d Hd.
  assert (Hin : In (id_of d) (map id_of (Store.docs c))).
  { rewrite <- (replace_first_ids f item). now apply in_map. }
  apply in_map_iff in Hin. destruct Hin as [d0 [E Hd0]]. rewrite <- E. auto.
Qed.

Lemma deleteOne_minted_ids (f : Schema -> bool) (c : Store.Collection Schema) :
  Store.minted_ids id_of c -> Store.minted_ids id_of (Store.deleteOne f c).
Proof.
  intros [Hlt Hnd]. unfold Store.minted_ids, Store.deleteOne; cbn. split.
  - rewrite Forall_forall in Hlt |- *. intros d Hd. apply Hlt.
    eapply delete_first_subset; eassumption.
  - now apply delete_first_NoDup.
Qed.

Lemma find_app_first (f : Schema -> bool) (l l' : list Schema) :
  find f (l ++ l') = match find f l with Some d => Some d | None => find f l' end.
Proof.
  induction l as [|d l IH]; cbn [app find]; [reflexivity|].
  now destruct (f d).
Qed.

(** A created document is found under the identifier returned, and hides
    no older one. *)
Lemma find_created (item : N -> Schema) (c : Store.Collection Schema) (i : N) :
  (forall k, id_of (item k) = k) ->
  Store.minted_ids id_of c ->
  find (Store.has_id id_of i) (Store.docs (snd (Store.createOne item c))) =
  if (i =? Store.minted c)%N then Some (item (Store.minted c))
  else find (Store.has_id id_of i) (Store.docs c).
Proof.
  intros Hitem [Hlt _]. unfold Store.createOne; cbn [snd Store.docs].
  rewrite find_app_first. cbn [find]. unfold Store.has_id at 2. rewrite Hitem.
  destruct (find (Store.has_id id_of i) (Store.docs c)) as [d|] eqn:E.
  - pose proof (@found_has_id _ _ _ E) as Hid. apply find_some in E.
    rewrite Forall_forall in Hlt. pose proof (Hlt d (proj1 E)).
    destruct (N.eqb_spec i (Store.minted c)); [lia|reflexivity].
  - rewrite N.eqb_sym. now destruct (i =? Store.minted c)%N.
Qed.

End StoreFacts.

(* ===================================================================== *)
(** ** [ChatConcept]                                                      *)
(* ===================================================================== *)

Module ChatFacts.

Import Async Chat.

Lemma chat_id_with_id (i : N) (d : ChatDoc N) : _id (with_id i d) = i.
Proof. reflexivity. Qed.

Lemma encode_decode_messages (ms : list (Message N)) (h : nat) :
  map encode_message (decode_messages h ms) = ms.
Proof.
  revert h; induction ms as [|m ms IH]; intro h; cbn; [reflexivity|].
  rewrite IH. now destruct m.
Qed.

(** What was read is written back as it was stored. *)
Lemma chat_encode_decode (d : ChatDoc N) (h : nat) : encode (decode h d) = d.
Proof.
  unfold encode, decode; cbn. rewrite hex_objects, encode_decode_messages.
  now destruct d.
Qed.

(** [equals] on the objects read picks the stored identifiers. *)
Lemma hex_filter_equals (u : Js.ObjectId) (ps : list N) (h : nat) :
  map Js.hex (filter (fun p => negb (Js.equals p u)) (Js.objects h ps))
  = without (Js.hex u) ps.
Proof.
  revert h; induction ps as [|p ps IH]; intro h; cbn; [reflexivity|].
  unfold Js.equals at 1; cbn [Js.hex].
  destruct (p =? Js.hex u)%N; cbn; now rewrite IH.
Qed.

Lemma without_spec (u x : N) (ps : list N) :
  In x (without u ps) <-> In x ps /\ x <> u.
Proof.
  unfold without. rewrite filter_In, negb_true_iff, N.eqb_neq. tauto.
Qed.

Lemma without_idempotent (u : N) (ps : list N) :
  without u (without u ps) = without u ps.
Proof.
  unfold without. induction ps as [|p ps IH]; cbn; [reflexivity|].
  destruct (p =? u)%N eqn:E; cbn; [exact IH|]. now rewrite E, IH.
Qed.

Lemma without_absent (u : N) (ps : list N) : ~ In u ps -> without u ps = ps.
Proof.
  unfold without. induction ps as [|p ps IH]; cbn; intro H; [reflexivity|].
  destruct (N.eqb_spec p u) as [->|]; [tauto|]. cbn. rewrite IH; tauto.
Qed.

Lemma leaveChat_run (chatId userId : Js.ObjectId) (rt : Runtime) :
  leaveChat chatId userId rt =
  match chat_of rt (Js.hex chatId) with
  | None => (Throw (ChatNotFoundError chatId), rt)
  | Some d =>
      (Ok left,
       mkRuntime (heap_top rt + decode_size d) (clock rt)
         (Store.replaceOne (@_id N) with_id (by_id chatId)
            (departed (Js.hex userId) d) (chats rt)))
  end.
Proof.
  unfold leaveChat, bind, readOne, chat_of, by_id.
  destruct (Store.readOne _ (chats rt)) as [d|]; [|reflexivity].
  unfold replaceOne, ret, encode, decode; cbn.
  now rewrite hex_filter_equals, encode_decode_messages.
Qed.

Lemma sendMessage_run (chatId author : Js.ObjectId) (text : string) (rt : Runtime) :
  sendMessage chatId author text rt =
  match chat_of rt (Js.hex chatId) with
  | None => (Throw (ChatNotFoundError chatId), rt)
  | Some d =>
      (Ok sent,
       mkRuntime (heap_top rt + decode_size d) (clock rt)
         (Store.replaceOne (@_id N) with_id (by_id chatId)
            (posted (mkMessage (Js.hex author) text (clock rt)) d) (chats rt)))
  end.
Proof.
  unfold sendMessage, bind, readOne, chat_of, by_id.
  destruct (Store.readOne _ (chats rt)) as [d|]; [|reflexivity].
  unfold replaceOne, newDate, ret, encode, decode, posted; cbn.
  now rewrite hex_objects, map_app, encode_decode_messages.
Qed.

(** The chats after a replacement under [j]. *)
Lemma chat_of_replaced (h : nat) (now : N) (item : ChatDoc N) (i j : N) (rt : Runtime) :
  chat_of (mkRuntime h now
             (Store.replaceOne (@_id N) with_id (Store.has_id (@_id N) j) item (chats rt))) i
  = if (i =? j)%N then option_map (fun _ => with_id j item) (chat_of rt j)
    else chat_of rt i.
Proof.
  unfold chat_of, Store.readOne, Store.replaceOne; cbn [chats Store.docs].
  apply find_replace_first. exact chat_id_with_id.
Qed.

Lemma chat_id_found (rt : Runtime) (i : N) (d : ChatDoc N) :
  chat_of rt i = Some d -> _id d = i.
Proof. apply found_has_id. Qed.

(** The chats after [leaveChat] and after [sendMessage]. *)
Lemma chat_of_left (chatId userId : Js.ObjectId) (rt : Runtime) (i : N) :
  chat_of (after (leaveChat chatId userId) rt) i =
  if (i =? Js.hex chatId)%N
  then option_map (departed (Js.hex userId)) (chat_of rt (Js.hex chatId))
  else chat_of rt i.
Proof.
  unfold after. rewrite leaveChat_run.
  destruct (chat_of rt (Js.hex chatId)) as [d|] eqn:Hd; cbn [snd].
  - unfold by_id. rewrite chat_of_replaced, Hd.
    destruct (i =? Js.hex chatId)%N; [|reflexivity].
    cbn. unfold with_id, departed; cbn. now rewrite (chat_id_found _ _ Hd).
  - destruct (N.eqb_spec i (Js.hex chatId)) as [->|]; [now rewrite Hd|reflexivity].
Qed.

Lemma chat_of_sent (chatId author : Js.ObjectId) (text : string) (rt : Runtime) (i : N) :
  chat_of (after (sendMessage chatId author text) rt) i =
  if (i =? Js.hex chatId)%N
  then option_map (posted (mkMessage (Js.hex author) text (clock rt)))
         (chat_of rt (Js.hex chatId))
  else chat_of rt i.
Proof.
  unfold after. rewrite sendMessage_run.
  destruct (chat_of rt (Js.hex chatId)) as [d|] eqn:Hd; cbn [snd].
  - unfold by_id. rewrite chat_of_replaced, Hd.
    destruct (i =? Js.hex chatId)%N; [|reflexivity].
    cbn. unfold with_id, posted; cbn. now rewrite (chat_id_found _ _ Hd).
  - destruct (N.eqb_spec i (Js.hex chatId)) as [->|]; [now rewrite Hd|reflexivity].
Qed.

(** Writing back a chat the user was not in changes no document. *)
Lemma departed_absent (chatId : Js.ObjectId) (user : N) (rt : Runtime) (d : ChatDoc N) :
  chat_of rt (Js.hex chatId) = Some d ->
  ~ In user (participants d) ->
  Store.replaceOne (@_id N) with_id (by_id chatId) (departed user d) (chats rt) = chats rt.
Proof.
  intros Hd Hnot. unfold Store.replaceOne. rewrite replace_first_same.
  - now destruct (chats rt).
  - intros d0 Hd0. unfold chat_of, Store.readOne, by_id in *.
    rewrite Hd in Hd0. injection Hd0 as <-.
    unfold with_id, departed; cbn. rewrite without_absent by assumption.
    now destruct d.
Qed.

Lemma leaveChat_clock (chatId userId : Js.ObjectId) (rt : Runtime) :
  clock (after (leaveChat chatId userId) rt) = clock rt.
Proof.
  unfold after. rewrite leaveChat_run. now destruct (chat_of rt (Js.hex chatId)).
Qed.

(** X1. [leaveChat(chatId, userId)] throws [ChatNotFoundError] and
    leaves the runtime as it was when no chat has that [_id]; otherwise
    it returns its message, the chat keeps its type, its messages and its
    other participants in order, the user is no longer among them, and
    every other chat is as before. *)
Theorem leaveChat_removes (chatId userId : Js.ObjectId) (rt : Runtime) :
  match chat_of rt (Js.hex chatId) with
  | None => leaveChat chatId userId rt = (Throw (ChatNotFoundError chatId), rt)
  | Some d =>
      outcome (leaveChat chatId userId) rt = Ok left /\
      ~ In (Js.hex userId) (participants (departed (Js.hex userId) d)) /\
      forall i, chat_of (after (leaveChat chatId userId) rt) i =
                if (i =? Js.hex chatId)%N then Some (departed (Js.hex userId) d)
                else chat_of rt i
  end.
Proof.
  destruct (chat_of rt (Js.hex chatId)) as [d|] eqn:Hd.
  - split; [unfold outcome; now rewrite leaveChat_run, Hd|]. split.
    + cbn. rewrite without_spec. tauto.
    + intro i. now rewrite chat_of_left, Hd.
  - now rewrite leaveChat_run, Hd.
Qed.

(** X2. Leaving a chat one is not a participant of still returns the
    message and leaves the whole collection as it was. *)
Theorem leaveChat_not_participant (chatId userId : Js.ObjectId) (rt : Runtime) (d : ChatDoc N) :
  chat_of rt (Js.hex chatId) = Some d ->
  ~ In (Js.hex userId) (participants d) ->
  outcome (leaveChat chatId userId) rt = Ok left /\
  chats (after (leaveChat chatId userId) rt) = chats rt.
Proof.
  intros Hd Hnot. unfold outcome, after. rewrite leaveChat_run, Hd.
  split; [reflexivity|]. cbn [snd chats]. now apply departed_absent.
Qed.

(** X3. Leaving is idempotent: a second [leaveChat] for the same chat and
    the same user, through whatever objects carry the two identifiers,
    leaves the collection as the first one left it. *)
Theorem leaveChat_twice (chatId userId chatId' userId' : Js.ObjectId) (rt : Runtime) :
  Js.hex chatId' = Js.hex chatId ->
  Js.hex userId' = Js.hex userId ->
  chats (after (leaveChat chatId' userId') (after (leaveChat chatId userId) rt))
  = chats (after (leaveChat chatId userId) rt).
Proof.
  intros Ec Eu. set (rt1 := after (leaveChat chatId userId) rt).
  assert (H1 : chat_of rt1 (Js.hex chatId') =
               option_map (departed (Js.hex userId)) (chat_of rt (Js.hex chatId))).
  { unfold rt1. now rewrite chat_of_left, Ec, N.eqb_refl. }
  unfold after at 1. rewrite leaveChat_run.
  destruct (chat_of rt (Js.hex chatId)) as [d|]; cbn [option_map] in H1; rewrite H1;
    [|reflexivity].
  cbn [snd chats]. apply departed_absent; [exact H1|].
  rewrite Eu. cbn. rewrite without_spec. tauto.
Qed.

(** X4. [sendMessage(chatId, author, text)] throws [ChatNotFoundError]
    and leaves the runtime as it was when no chat has that [_id];
    otherwise, whoever the author is, it returns its message, the chat
    gets the new message last, stamped with the clock, its participants
    and earlier messages stay, and every other chat is as before. *)
Theorem sendMessage_appends (chatId author : Js.ObjectId) (text : string) (rt : Runtime) :
  match chat_of rt (Js.hex chatId) with
  | None => sendMessage chatId author text rt = (Throw (ChatNotFoundError chatId), rt)
  | Some d =>
      outcome (sendMessage chatId author text) rt = Ok sent /\
      forall i, chat_of (after (sendMessage chatId author text) rt) i =
                if (i =? Js.hex chatId)%N
                then Some (posted (mkMessage (Js.hex author) text (clock rt)) d)
                else chat_of rt i
  end.
Proof.
  destruct (chat_of rt (Js.hex chatId)) as [d|] eqn:Hd.
  - split; [unfold outcome; now rewrite sendMessage_run, Hd|].
    intro i. now rewrite chat_of_sent, Hd.
  - now rewrite sendMessage_run, Hd.
Qed.

(** X5. No membership test guards [sendMessage]: a user who has just left
    a chat can still send to it; the message is stored and the user is
    still not a participant. *)
Theorem send_after_leaving (chatId userId : Js.ObjectId) (text : string)
  (rt : Runtime) (d : ChatDoc N) :
  chat_of rt (Js.hex chatId) = Some d ->
  let rt1 := after (leaveChat chatId userId) rt in
  outcome (sendMessage chatId userId text) rt1 = Ok sent /\
  exists d', chat_of (after (sendMessage chatId userId text) rt1) (Js.hex chatId) = Some d' /\
             ~ In (Js.hex userId) (participants d') /\
             messages d' = messages d ++ [mkMessage (Js.hex userId) text (clock rt)].
Proof.
  intros Hd rt1.
  assert (H1 : chat_of rt1 (Js.hex chatId) = Some (departed (Js.hex userId) d)).
  { unfold rt1. now rewrite chat_of_left, N.eqb_refl, Hd. }
  split; [unfold outcome; now rewrite sendMessage_run, H1|].
  eexists. split; [rewrite chat_of_sent, N.eqb_refl, H1; reflexivity|].
  split.
  - cbn. rewrite without_spec. tauto.
  - cbn. unfold rt1. now rewrite leaveChat_clock.
Qed.

Lemma chat_item_id (ty : ChatType) (ps : list N) (k : N) :
  _id (mkChatDoc k ty ps []) = k.
Proof. reflexivity. Qed.

Lemma chat_of_created (item : N -> ChatDoc N) (rt : Runtime) (j : N) :
  (forall k, _id (item k) = k) ->
  Store.minted_ids (@_id N) (chats rt) ->
  outcome (createOne item) rt = Ok (Store.minted (chats rt)) /\
  chat_of (after (createOne item) rt) j =
  if (j =? Store.minted (chats rt))%N then Some (item (Store.minted (chats rt)))
  else chat_of rt j.
Proof.
  intros Hitem Hids. split; [reflexivity|].
  unfold chat_of, Store.readOne, after, createOne.
  pose proof (@find_created (ChatDoc N) (@_id N) item (chats rt) j Hitem Hids) as H.
  destruct (Store.createOne item (chats rt)) as [i c] eqn:E. exact H.
Qed.

(** X6. With identifiers minted by the collection, [startPrivateChat] and
    [startGroupChat] return an [_id] under which the new chat is then
    found: private with exactly the two users given, in order, or group
    with the users given, and no message; every older chat is still found
    under its own [_id]. *)
Theorem started_chat_is_found (user1 user2 : Js.ObjectId) (users : list Js.ObjectId)
  (rt : Runtime) (j : N) :
  Store.minted_ids (@_id N) (chats rt) ->
  let i := Store.minted (chats rt) in
  (outcome (startPrivateChat user1 user2) rt = Ok i /\
   chat_of (after (startPrivateChat user1 user2) rt) j =
   if (j =? i)%N then Some (mkChatDoc i Private [Js.hex user1; Js.hex user2] [])
   else chat_of rt j) /\
  (outcome (startGroupChat users) rt = Ok i /\
   chat_of (after (startGroupChat users) rt) j =
   if (j =? i)%N then Some (mkChatDoc i Group (map Js.hex users) [])
   else chat_of rt j).
Proof.
  intros Hids i. split.
  - apply (@chat_of_created (fun k => mkChatDoc k Private [Js.hex user1; Js.hex user2] []));
      [reflexivity|exact Hids].
  - apply (@chat_of_created (fun k => mkChatDoc k Group (map Js.hex users) []));
      [reflexivity|exact Hids].
Qed.

Lemma no_chat_minted : Store.minted_ids (@_id N) (chats Rooms.no_chat).
Proof. split; constructor. Defined.

Lemma started_chat_is_found_witness :
  Store.minted_ids (@_id N) (chats Rooms.no_chat) /\
  chat_of Rooms.one_chat 0 = Some (mkChatDoc 0 Private [11%N; 12%N] []).
Proof.
  split; [exact no_chat_minted|].
  exact (proj2 (proj1 (@started_chat_is_found Rooms.ann Rooms.ben [] Rooms.no_chat 0%N
                         no_chat_minted))).
Defined.

(** X7. Every operation of the concept keeps the identifiers of the
    stored chats minted by the collection and in use once. *)
Theorem chat_ids_kept (a b : Js.ObjectId) (users : list Js.ObjectId) (text : string)
  (rt : Runtime) :
  Store.minted_ids (@_id N) (chats rt) ->
  Store.minted_ids (@_id N) (chats (after (startPrivateChat a b) rt)) /\
  Store.minted_ids (@_id N) (chats (after (startGroupChat users) rt)) /\
  Store.minted_ids (@_id N) (chats (after (sendMessage a b text) rt)) /\
  Store.minted_ids (@_id N) (chats (after (getChat a) rt)) /\
  Store.minted_ids (@_id N) (chats (after (leaveChat a b) rt)).
Proof.
  intro Hids. split; [|split; [|split; [|split]]].
  - unfold after, startPrivateChat, createOne.
    pose proof (@createOne_minted_ids _ (@_id N)
                  (fun k => mkChatDoc k Private [Js.hex a; Js.hex b] []) (chats rt)
                  (fun _ => eq_refl) Hids) as H.
    destruct (Store.createOne _ (chats rt)); exact H.
  - unfold after, startGroupChat, createOne.
    pose proof (@createOne_minted_ids _ (@_id N)
                  (fun k => mkChatDoc k Group (map Js.hex users) []) (chats rt)
                  (fun _ => eq_refl) Hids) as H.
    destruct (Store.createOne _ (chats rt)); exact H.
  - unfold after. rewrite sendMessage_run.
    destruct (chat_of rt (Js.hex a)); [|exact Hids].
    cbn [snd chats]. now apply replaceOne_minted_ids.
  - unfold after, getChat, bind, readOne.
    destruct (Store.readOne _ (chats rt)); exact Hids.
  - unfold after. rewrite leaveChat_run.
    destruct (chat_of rt (Js.hex a)); [|exact Hids].
    cbn [snd chats]. now apply replaceOne_minted_ids.
Qed.

Lemma chat_ids_kept_witness :
  Store.minted_ids (@_id N) (chats Rooms.no_chat) /\
  Store.minted_ids (@_id N) (chats Rooms.one_chat).
Proof.
  split; [exact no_chat_minted|].
  exact (proj1 (@chat_ids_kept Rooms.ann Rooms.ben [] EmptyString Rooms.no_chat
                  no_chat_minted)).
Defined.

Lemma leaveChat_not_participant_witness :
  chat_of Rooms.one_chat (Js.hex Rooms.the_chat) = Some (mkChatDoc 0 Private [11%N; 12%N] []) /\
  ~ In (Js.hex Rooms.cat) [11%N; 12%N] /\
  chats (after (leaveChat Rooms.the_chat Rooms.cat) Rooms.one_chat) = chats Rooms.one_chat.
Proof.
  assert (Hnot : ~ In (Js.hex Rooms.cat) [11%N; 12%N])
    by (simpl; intros [H|[H|[]]]; discriminate H).
  split; [reflexivity|]. split; [exact Hnot|].
  exact (proj2 (@leaveChat_not_participant Rooms.the_chat Rooms.cat Rooms.one_chat
                  (mkChatDoc 0 Private [11%N; 12%N] []) eq_refl Hnot)).
Defined.

Lemma leaveChat_twice_witness :
  chat_of (after (leaveChat Rooms.the_chat Rooms.ben) Rooms.one_chat) 0
  = Some (mkChatDoc 0 Private [11%N] []) /\
  chats (after (leaveChat (Js.mkObjectId 9 0) (Js.mkObjectId 8 12))
           (after (leaveChat Rooms.the_chat Rooms.ben) Rooms.one_chat))
  = chats (after (leaveChat Rooms.the_chat Rooms.ben) Rooms.one_chat).
Proof.
  split; [reflexivity|].
  exact (@leaveChat_twice Rooms.the_chat Rooms.ben (Js.mkObjectId 9 0) (Js.mkObjectId 8 12)
           Rooms.one_chat eq_refl eq_refl).
Defined.

Lemma send_after_leaving_witness :
  chat_of Rooms.one_chat (Js.hex Rooms.the_chat) = Some (mkChatDoc 0 Private [11%N; 12%N] []) /\
  outcome (sendMessage Rooms.the_chat Rooms.ben "bye")
    (after (leaveChat Rooms.the_chat Rooms.ben) Rooms.one_chat) = Ok sent.
Proof.
  split; [reflexivity|].
  exact (proj1 (@send_after_leaving Rooms.the_chat Rooms.ben "bye" Rooms.one_chat
                  (mkChatDoc 0 Private [11%N; 12%N] []) eq_refl)).
Defined.

End ChatFacts.

(* ===================================================================== *)
(** ** [CommentingConcept]                                                *)
(* ===================================================================== *)

Module CommentingFacts.

Import Async Commenting.

Lemma comment_id_with_id (i : N) (d : CommentDoc N) : _id (with_id i d) = i.
Proof. reflexivity. Qed.

Lemma comment_encode_decode (d : CommentDoc N) (h : nat) : encode (decode h d) = d.
Proof. now destruct d. Qed.

Lemma comment_encode_decode_all (l : list (CommentDoc N)) (h : nat) :
  map encode (decode_all h l) = l.
Proof.
  revert h; induction l as [|d l IH]; intro h; cbn [decode_all map]; [reflexivity|].
  now rewrite IH, comment_encode_decode.
Qed.

Lemma comment_id_found (rt : Runtime) (i : N) (d : CommentDoc N) :
  comment_of rt i = Some d -> _id d = i.
Proof. apply found_has_id. Qed.

Lemma editComment_run (commentId : Js.ObjectId) (newText : string) (rt : Runtime) :
  editComment commentId newText rt =
  match comment_of rt (Js.hex commentId) with
  | None => (Throw (CommentNotFoundError commentId), rt)
  | Some d =>
      (Ok updated,
       mkRuntime (heap_top rt + 2) (clock rt)
         (Store.replaceOne (@_id N) with_id (by_id commentId)
            (edited newText (clock rt) d) (comments rt)))
  end.
Proof.
  unfold editComment, bind, readOne, comment_of, by_id.
  destruct (Store.readOne _ (comments rt)) as [d|]; reflexivity.
Qed.

(** The comments after [editComment] and, with identifiers in use once,
    after [deleteComment]. *)
Lemma comment_of_edited (commentId : Js.ObjectId) (newText : string) (rt : Runtime) (i : N) :
  comment_of (after (editComment commentId newText) rt) i =
  if (i =? Js.hex commentId)%N
  then option_map (edited newText (clock rt)) (comment_of rt (Js.hex commentId))
  else comment_of rt i.
Proof.
  unfold after. rewrite editComment_run.
  destruct (comment_of rt (Js.hex commentId)) as [d|] eqn:Hd; cbn [snd].
  - unfold comment_of, Store.readOne, Store.replaceOne, by_id; cbn [comments Store.docs].
    rewrite (find_replace_first (@_id N) with_id comment_id_with_id).
    destruct (i =? Js.hex commentId)%N; [|reflexivity].
    unfold comment_of, Store.readOne in Hd. rewrite Hd. cbn.
    unfold with_id, edited; cbn. now rewrite (comment_id_found rt _ Hd).
  - destruct (N.eqb_spec i (Js.hex commentId)) as [->|]; [now rewrite Hd|reflexivity].
Qed.

Lemma comment_of_deleted (commentId : Js.ObjectId) (rt : Runtime) (i : N) :
  Store.minted_ids (@_id N) (comments rt) ->
  comment_of (after (deleteComment commentId) rt) i =
  if (i =? Js.hex commentId)%N then None else comment_of rt i.
Proof.
  intros [_ Hnd].
  unfold comment_of, Store.readOne, after, deleteComment, bind, deleteOne, ret, by_id, Store.deleteOne.
  cbn [snd comments Store.docs]. now apply find_delete_first.
Qed.

(** X8. [editComment(commentId, newText)] throws [CommentNotFoundError]
    and leaves the runtime as it was when no comment has that [_id];
    otherwise it returns its message, the comment gets the new text and
    the time of the clock and keeps its [_id], [postId] and [author], and
    every other comment is as before. *)
Theorem editComment_rewrites (commentId : Js.ObjectId) (newText : string) (rt : Runtime) :
  match comment_of rt (Js.hex commentId) with
  | None => editComment commentId newText rt = (Throw (CommentNotFoundError commentId), rt)
  | Some d =>
      outcome (editComment commentId newText) rt = Ok updated /\
      forall i, comment_of (after (editComment commentId newText) rt) i =
                if (i =? Js.hex commentId)%N then Some (edited newText (clock rt) d)
                else comment_of rt i
  end.
Proof.
  destruct (comment_of rt (Js.hex commentId)) as [d|] eqn:Hd.
  - split; [unfold outcome; now rewrite editComment_run, Hd|].
    intro i. now rewrite comment_of_edited, Hd.
  - now rewrite editComment_run, Hd.
Qed.

(** X9. [deleteComment] never throws: for an [_id] no comment has, it
    returns its message and leaves the runtime as it was. *)
Theorem deleteComment_missing (commentId : Js.ObjectId) (rt : Runtime) :
  comment_of rt (Js.hex commentId) = None ->
  deleteComment commentId rt = (Ok deleted, rt).
Proof.
  intro H. unfold deleteComment, bind, deleteOne, ret, Store.deleteOne, by_id.
  unfold comment_of, Store.readOne in H. rewrite (delete_first_none _ _ H).
  destruct rt as [h now [ds k]]. reflexivity.
Qed.

Lemma deleteComment_missing_witness :
  comment_of Rooms.one_comment (Js.hex Rooms.no_such_comment) = None /\
  deleteComment Rooms.no_such_comment Rooms.one_comment = (Ok deleted, Rooms.one_comment).
Proof.
  split; [reflexivity|].
  exact (@deleteComment_missing Rooms.no_such_comment Rooms.one_comment eq_refl).
Defined.

(** X10. With identifiers minted by the collection, after
    [deleteComment(commentId)] no comment is found under that [_id] and
    every other comment is found as before. *)
Theorem deleteComment_removes (commentId : Js.ObjectId) (rt : Runtime) (i : N) :
  Store.minted_ids (@_id N) (comments rt) ->
  outcome (deleteComment commentId) rt = Ok deleted /\
  comment_of (after (deleteComment commentId) rt) i =
  if (i =? Js.hex commentId)%N then None else comment_of rt i.
Proof.
  intro Hids. split; [reflexivity|]. now apply comment_of_deleted.
Qed.

Lemma no_comment_minted : Store.minted_ids (@_id N) (comments Rooms.no_comment).
Proof. split; constructor. Defined.

Lemma one_comment_minted : Store.minted_ids (@_id N) (comments Rooms.one_comment).
Proof.
  split.
  - repeat constructor.
  - repeat constructor. simpl; tauto.
Defined.

Lemma deleteComment_removes_witness :
  Store.minted_ids (@_id N) (comments Rooms.one_comment) /\
  comment_of Rooms.one_comment 0 <> None /\
  comment_of (after (deleteComment Rooms.the_comment) Rooms.one_comment) 0 = None.
Proof.
  split; [exact one_comment_minted|]. split; [discriminate|].
  exact (proj2 (@deleteComment_removes Rooms.the_comment Rooms.one_comment 0%N
                  one_comment_minted)).
Defined.

(** X11. With identifiers minted by the collection, editing a comment
    that was just deleted throws [CommentNotFoundError], through whatever
    object carries the identifier, and changes nothing more. *)
Theorem edit_after_delete (commentId commentId' : Js.ObjectId) (newText : string)
  (rt : Runtime) :
  Store.minted_ids (@_id N) (comments rt) ->
  Js.hex commentId' = Js.hex commentId ->
  editComment commentId' newText (after (deleteComment commentId) rt)
  = (Throw (CommentNotFoundError commentId'), after (deleteComment commentId) rt).
Proof.
  intros Hids E. rewrite editComment_run.
  now rewrite (@comment_of_deleted commentId rt (Js.hex commentId') Hids), E, N.eqb_refl.
Qed.

Lemma edit_after_delete_witness :
  Store.minted_ids (@_id N) (comments Rooms.one_comment) /\
  outcome (editComment (Js.mkObjectId 7 0) "again")
    (after (deleteComment Rooms.the_comment) Rooms.one_comment)
  = Throw (CommentNotFoundError (Js.mkObjectId 7 0)).
Proof.
  split; [exact one_comment_minted|].
  exact (f_equal fst (@edit_after_delete Rooms.the_comment (Js.mkObjectId 7 0) "again"
                        Rooms.one_comment one_comment_minted eq_refl)).
Defined.

(** X12. After [addComment(postId, author, text)], [getCommentsByPost]
    for a post gives the comments stored for that post before, in
    insertion order, followed by the new comment when it is the post
    commented on; the new comment carries the identifiers given, the text
    and the time of the clock. *)
Theorem comments_after_add (postId author post : Js.ObjectId) (text : string) (rt : Runtime) :
  exists l,
    outcome (getCommentsByPost post) (after (addComment postId author text) rt) = Ok l /\
    map encode l =
    filter (on_post (Js.hex post)) (stored rt) ++
    (if (Js.hex postId =? Js.hex post)%N
     then [mkCommentDoc (Store.minted (comments rt)) (Js.hex postId) (Js.hex author)
             text (clock rt)]
     else []).
Proof.
  eexists. split; [reflexivity|].
  rewrite comment_encode_decode_all.
  unfold after, addComment, bind, newDate, createOne, Store.createOne, Store.readMany, stored.
  cbn [snd fst comments Store.docs]. rewrite filter_app. cbn [filter].
  unfold on_post at 2; cbn [Commenting.postId]. now destruct (_ =? _)%N.
Qed.

(** X13. Every operation of the concept keeps the identifiers of the
    stored comments minted by the collection and in use once. *)
Theorem comment_ids_kept (a b : Js.ObjectId) (text : string) (rt : Runtime) :
  Store.minted_ids (@_id N) (comments rt) ->
  Store.minted_ids (@_id N) (comments (after (addComment a b text) rt)) /\
  Store.minted_ids (@_id N) (comments (after (editComment a text) rt)) /\
  Store.minted_ids (@_id N) (comments (after (deleteComment a) rt)) /\
  Store.minted_ids (@_id N) (comments (after (getCommentsByPost a) rt)).
Proof.
  intro Hids. split; [|split; [|split]].
  - unfold after, addComment, bind, newDate, createOne.
    pose proof (@createOne_minted_ids _ (@_id N)
                  (fun k => mkCommentDoc k (Js.hex a) (Js.hex b) text (clock rt))
                  (comments rt) (fun _ => eq_refl) Hids) as H.
    cbn [comments clock] in *. destruct (Store.createOne _ (comments rt)); exact H.
  - unfold after. rewrite editComment_run.
    destruct (comment_of rt (Js.hex a)); [|exact Hids].
    cbn [snd comments]. now apply replaceOne_minted_ids.
  - unfold after, deleteComment, bind, deleteOne, ret. cbn [snd comments].
    now apply deleteOne_minted_ids.
  - exact Hids.
Qed.

Lemma comment_ids_kept_witness :
  Store.minted_ids (@_id N) (comments Rooms.no_comment) /\
  Store.minted_ids (@_id N) (comments Rooms.one_comment).
Proof.
  split; [exact no_comment_minted|].
  exact (proj1 (@comment_ids_kept Rooms.the_post Rooms.ann "first" Rooms.no_comment
                  no_comment_minted)).
Defined.

End CommentingFacts.

(* ===================================================================== *)
(** ** [ProfileConcept]: the other methods, and how they compose          *)
(* ===================================================================== *)

Module ProfileFacts.

Import Run Profile Profiles.

Lemma update_first_none (f : Doc.Filter) (u : Doc.PartialProfileDoc N) (l : list (Doc.ProfileDoc N)) :
  find f l = None -> Doc.update_first f u l = l.
Proof.
  induction l as [|d l IH]; cbn [find Doc.update_first]; [reflexivity|].
  destruct (f d); [discriminate|]. intro H. now rewrite IH.
Qed.

Lemma profile_encode_decode (d : Doc.ProfileDoc N) (h : nat) : encode (Doc.decode h d) = d.
Proof. unfold encode, Doc.decode; cbn. rewrite !hex_objects. now destruct d. Qed.

(** The profiles after [createProfile]: an older profile of the same
    identifier stays the one that is found. *)
Lemma profile_of_created (userId : Js.ObjectId) (name : string)
  (expertise interests pastExperience : list string) (gender : string)
  (rt : Runtime) (x : N) :
  profile_of (after (createProfile userId name expertise interests pastExperience gender) rt) x =
  match profile_of rt x with
  | Some p => Some p
  | None =>
      if (x =? Js.hex userId)%N
      then Some (Doc.mkProfileDoc (Doc.minted (profiles rt)) (Js.hex userId) name expertise
                   interests pastExperience Doc.unverified gender [] [])
      else None
  end.
Proof.
  unfold profile_of, Doc.readOne, after, createProfile, createOne, Doc.createOne.
  cbn [snd profiles Doc.docs]. rewrite find_app_first. cbn [find].
  unfold owned_by at 2; cbn [Doc.userId]. rewrite N.eqb_sym.
  now destruct (find _ _), (x =? Js.hex userId)%N.
Qed.

Lemma getProfile_run (userId : Js.ObjectId) (rt : Runtime) :
  getProfile userId rt =
  match profile_of rt (Js.hex userId) with
  | None => (Throw (ProfileNotFoundError userId), rt)
  | Some d => (Ok (Doc.decode (heap_top rt) d),
               mkRuntime (heap_top rt + Doc.decode_size d) (profiles rt))
  end.
Proof.
  unfold getProfile, bind, readOne, by_userId, profile_of.
  now destruct (Doc.readOne _ (profiles rt)).
Qed.

(** X14. [createProfile] does not look for an older profile: called for
    a user who has one, it adds a second document, and every read by
    [userId] still finds what it found before, for that user and for
    every other. *)
Theorem createProfile_again_is_hidden (userId : Js.ObjectId) (name : string)
  (expertise interests pastExperience : list string) (gender : string)
  (rt : Runtime) (p : Doc.ProfileDoc N) :
  profile_of rt (Js.hex userId) = Some p ->
  let rt' := after (createProfile userId name expertise interests pastExperience gender) rt in
  List.length (stored rt') = S (List.length (stored rt)) /\
  forall x, profile_of rt' x = profile_of rt x.
Proof.
  intros Hp rt'. split.
  - unfold rt', stored, after, createProfile, createOne, Doc.createOne. cbn.
    rewrite length_app. simpl. lia.
  - intro x. unfold rt'. rewrite profile_of_created.
    destruct (profile_of rt x) eqn:Hx; [reflexivity|].
    destruct (N.eqb_spec x (Js.hex userId)) as [->|]; [congruence|reflexivity].
Qed.

Lemma createProfile_again_is_hidden_witness :
  profile_of Scenario.signed_up (Js.hex Scenario.bob_object) <> None /\
  forall x,
    profile_of (after (createProfile Scenario.bob_object "bobby" [] [] [] "x")
                  Scenario.signed_up) x
    = profile_of Scenario.signed_up x.
Proof.
  split; [discriminate|].
  exact (proj2 (@createProfile_again_is_hidden Scenario.bob_object "bobby" [] [] [] "x"
                  Scenario.signed_up _ eq_refl)).
Defined.

(** X15. For a user without a profile, [createProfile] followed by
    [getProfile], through whatever object carries the identifier,
    returns the document created: the fields given, no follower, nobody
    followed, unverified. *)
Theorem created_profile_is_read (userId userId' : Js.ObjectId) (name : string)
  (expertise interests pastExperience : list string) (gender : string) (rt : Runtime) :
  profile_of rt (Js.hex userId) = None ->
  Js.hex userId' = Js.hex userId ->
  exists p,
    outcome (getProfile userId')
      (after (createProfile userId name expertise interests pastExperience gender) rt) = Ok p /\
    encode p =
    Doc.mkProfileDoc (Doc.minted (profiles rt)) (Js.hex userId) name expertise interests
      pastExperience Doc.unverified gender [] [].
Proof.
  intros Hnone E. eexists. unfold outcome. rewrite getProfile_run, E.
  rewrite profile_of_created, Hnone, N.eqb_refl. cbn [fst].
  split; [reflexivity|]. apply profile_encode_decode.
Qed.

Lemma created_profile_is_read_witness :
  profile_of Scenario.signed_up Scenario.carol = None /\
  exists p,
    outcome (getProfile (Js.mkObjectId 9 Scenario.carol))
      (after (createProfile Scenario.carol_object "carol" [] [] [] "f") Scenario.signed_up)
    = Ok p /\
    encode p = Doc.mkProfileDoc 2 Scenario.carol "carol" [] [] [] Doc.unverified "f" [] [].
Proof.
  split; [reflexivity|].
  exact (@created_profile_is_read Scenario.carol_object (Js.mkObjectId 9 Scenario.carol)
           "carol" [] [] [] "f" Scenario.signed_up eq_refl eq_refl).
Defined.

(** X16. [getProfile(userId)] leaves the collection as it is; with a
    profile for [userId] it returns that document, identifier for
    identifier, and without one it throws [ProfileNotFoundError]. *)
Theorem getProfile_reads (userId : Js.ObjectId) (rt : Runtime) :
  profiles (after (getProfile userId) rt) = profiles rt /\
  match profile_of rt (Js.hex userId) with
  | Some d => exists p, outcome (getProfile userId) rt = Ok p /\ encode p = d
  | None => outcome (getProfile userId) rt = Throw (ProfileNotFoundError userId)
  end.
Proof.
  unfold after, outcome. rewrite getProfile_run.
  destruct (profile_of rt (Js.hex userId)) as [d|]; cbn [fst snd profiles].
  - split; [reflexivity|]. eexists. split; [reflexivity|apply profile_encode_decode].
  - split; reflexivity.
Qed.

Lemma profile_of_verified (userId : Js.ObjectId) (rt : Runtime) (x : N) :
  profile_of (after (verifyProfile userId) rt) x =
  if (x =? Js.hex userId)%N then option_map marked_verified (profile_of rt x)
  else profile_of rt x.
Proof.
  unfold profile_of, Doc.readOne, after, verifyProfile, partialUpdateOne, by_userId,
    Doc.partialUpdateOne.
  cbn [snd profiles Doc.docs]. rewrite find_update_first by reflexivity.
  destruct (N.eqb_spec x (Js.hex userId)) as [->|]; [|reflexivity].
  now destruct (find _ _).
Qed.

(** X17. [verifyProfile(userId)] never throws; the profile of [userId],
    if there is one, becomes verified and keeps every other field, and
    every other profile is as before. *)
Theorem verifyProfile_marks (userId : Js.ObjectId) (rt : Runtime) :
  outcome (verifyProfile userId) rt = Ok tt /\
  forall x, profile_of (after (verifyProfile userId) rt) x =
            if (x =? Js.hex userId)%N then option_map marked_verified (profile_of rt x)
            else profile_of rt x.
Proof. split; [reflexivity|]. intro x. apply profile_of_verified. Qed.

(** X18. [verifyProfile] keeps the symmetry of the follow graph. *)
Theorem verifyProfile_keeps_symmetry (userId : Js.ObjectId) (rt : Runtime) :
  symmetric rt -> symmetric (after (verifyProfile userId) rt).
Proof.
  intros Hsym A B pa' pb'. rewrite !profile_of_verified. intros Ha Hb.
  assert (Hpa : exists pa, profile_of rt A = Some pa /\ Doc.following pa' = Doc.following pa).
  { destruct (A =? Js.hex userId)%N; [|eauto].
    destruct (profile_of rt A) as [pa|]; [|discriminate].
    injection Ha as <-. eauto. }
  assert (Hpb : exists pb, profile_of rt B = Some pb /\ Doc.followers pb' = Doc.followers pb).
  { destruct (B =? Js.hex userId)%N; [|eauto].
    destruct (profile_of rt B) as [pb|]; [|discriminate].
    injection Hb as <-. eauto. }
  destruct Hpa as [pa [Hpa ->]], Hpb as [pb [Hpb ->]]. now apply Hsym.
Qed.

Lemma verifyProfile_keeps_symmetry_witness :
  symmetric Scenario.signed_up /\
  symmetric (after (verifyProfile Scenario.alice_object) Scenario.signed_up).
Proof.
  assert (H0 : symmetric Scenario.signed_up).
  { apply symmetric_blank. intros d [<-|[<-|[]]]; split; reflexivity. }
  split; [exact H0|].
  exact (@verifyProfile_keeps_symmetry Scenario.alice_object Scenario.signed_up H0).
Defined.

(** X19. [editProfile] and [verifyProfile] for a user without a profile
    do not throw and leave the runtime as it was, whatever the fields
    given. *)
Theorem edit_without_profile (userId : Js.ObjectId)
  (updatedInfo : Doc.PartialProfileDoc Js.ObjectId) (rt : Runtime) :
  profile_of rt (Js.hex userId) = None ->
  editProfile userId updatedInfo rt = (Ok tt, rt) /\
  verifyProfile userId rt = (Ok tt, rt).
Proof.
  intro H. unfold editProfile, verifyProfile, partialUpdateOne, Doc.partialUpdateOne, by_userId.
  unfold profile_of, Doc.readOne in H. rewrite !(update_first_none _ _ _ H).
  destruct rt as [h [ds k]]. split; reflexivity.
Qed.

Lemma edit_without_profile_witness :
  profile_of Scenario.signed_up (Js.hex Scenario.carol_object) = None /\
  editProfile Scenario.carol_object (only_followers [Scenario.alice_object]) Scenario.signed_up
  = (Ok tt, Scenario.signed_up).
Proof.
  split; [reflexivity|].
  exact (proj1 (@edit_without_profile Scenario.carol_object
                  (only_followers [Scenario.alice_object]) Scenario.signed_up eq_refl)).
Defined.

(** X20. [editProfile] writes the follow arrays like any other field:
    giving [b] the follower [a], whom [a]'s own profile does not list as
    followed, leaves a follow graph that is not symmetric. *)
Theorem editProfile_breaks_symmetry (a b : Js.ObjectId) (rt : Runtime)
  (pa pb : Doc.ProfileDoc N) :
  profile_of rt (Js.hex a) = Some pa ->
  profile_of rt (Js.hex b) = Some pb ->
  ~ In (Js.hex b) (Doc.following pa) ->
  ~ symmetric (after (editProfile b (only_followers [a])) rt).
Proof.
  intros Ha Hb Hnot Hsym.
  assert (Hprof : forall x,
    profile_of (after (editProfile b (only_followers [a])) rt) x =
    if (x =? Js.hex b)%N
    then option_map (Doc.set_fields (Doc.encode_partial (only_followers [a]))) (profile_of rt x)
    else profile_of rt x).
  { intro x. unfold profile_of, Doc.readOne, after, editProfile, partialUpdateOne, by_userId,
      Doc.partialUpdateOne.
    cbn [snd profiles Doc.docs]. rewrite find_update_first by reflexivity.
    now destruct (N.eqb_spec x (Js.hex b)) as [->|]. }
  pose proof (Hprof (Js.hex b)) as Hb'. rewrite N.eqb_refl, Hb in Hb'.
  pose proof (Hprof (Js.hex a)) as Ha'. rewrite Ha in Ha'.
  destruct (Js.hex a =? Js.hex b)%N; cbn [option_map] in Ha', Hb';
    pose proof (Hsym (Js.hex a) (Js.hex b) _ _ Ha' Hb') as H; cbn in H;
    apply Hnot, H; now left.
Qed.

Lemma editProfile_breaks_symmetry_witness :
  symmetric Scenario.signed_up /\
  ~ symmetric (after (editProfile Scenario.bob_object (only_followers [Scenario.alice_object]))
                 Scenario.signed_up).
Proof.
  split.
  - apply symmetric_blank. intros d [<-|[<-|[]]]; split; reflexivity.
  - apply (@editProfile_breaks_symmetry Scenario.alice_object Scenario.bob_object
             Scenario.signed_up _ _ eq_refl eq_refl).
    simpl. tauto.
Defined.

(** X21. A profile created late breaks the symmetry: when a user without
    a profile has followed a target, and then creates a profile, the
    target lists the user as follower and the new profile follows
    nobody. *)
Theorem late_profile_breaks_symmetry (u t u' : Js.ObjectId) (name : string)
  (expertise interests pastExperience : list string) (gender : string)
  (rt : Runtime) (pt : Doc.ProfileDoc N) :
  live rt u -> live rt t ->
  profile_of rt (Js.hex t) = Some pt ->
  profile_of rt (Js.hex u) = None ->
  Js.hex u' = Js.hex u ->
  ~ symmetric (after (createProfile u' name expertise interests pastExperience gender)
                 (after (followUser u t) rt)).
Proof.
  intros Hu Ht Hpt Hnone E Hsym.
  destruct (followUser_found Hu Ht Hpt) as [_ Hprof].
  set (rt1 := after (followUser u t) rt) in *.
  assert (H1t : profile_of rt1 (Js.hex t) = Some (bump (Js.hex u) (Js.hex t) (Js.hex t) pt))
    by (now rewrite Hprof, Hpt).
  assert (H1u : profile_of rt1 (Js.hex u) = None) by (now rewrite Hprof, Hnone).
  pose proof (profile_of_created u' name expertise interests pastExperience gender rt1
                (Js.hex t)) as H2t. rewrite H1t in H2t.
  pose proof (profile_of_created u' name expertise interests pastExperience gender rt1
                (Js.hex u)) as H2u. rewrite H1u, E, N.eqb_refl in H2u.
  pose proof (Hsym (Js.hex u) (Js.hex t) _ _ H2u H2t) as H.
  cbn in H. apply H. rewrite N.eqb_refl, in_app_iff. right. now left.
Qed.

Lemma late_profile_breaks_symmetry_witness :
  symmetric bob_and_visitor /\
  ~ symmetric (after (createProfile visitor "carol" [] [] [] "f")
                 (after (followUser visitor bob_there) bob_and_visitor)).
Proof.
  split.
  - apply symmetric_blank. intros d [<-|[]]; split; reflexivity.
  - eapply (@late_profile_breaks_symmetry visitor bob_there visitor "carol" [] [] [] "f"
              bob_and_visitor);
      [unfold live; simpl; lia|unfold live; simpl; lia|reflexivity|reflexivity|reflexivity].
Defined.

(** X22. A user without a profile who follows a target gets the success
    message; the target's profile gains the follower, nothing records
    whom the user follows, and every other profile is as before. *)
Theorem follow_without_profile_is_half (u t : Js.ObjectId) (rt : Runtime)
  (pt : Doc.ProfileDoc N) :
  live rt u -> live rt t ->
  profile_of rt (Js.hex t) = Some pt ->
  profile_of rt (Js.hex u) = None ->
  outcome (followUser u t) rt = Ok followed /\
  forall x, profile_of (after (followUser u t) rt) x =
            if (x =? Js.hex t)%N then Some (followed_by (Js.hex u) pt)
            else profile_of rt x.
Proof.
  intros Hu Ht Hpt Hnone. destruct (followUser_found Hu Ht Hpt) as [Hok Hprof].
  split; [exact Hok|]. intro x. rewrite Hprof.
  destruct (N.eqb_spec x (Js.hex t)) as [->|Hxt].
  - rewrite Hpt. cbn [option_map]. unfold bump, followed_by. rewrite N.eqb_refl.
    destruct (N.eqb_spec (Js.hex t) (Js.hex u)) as [E|_]; [congruence|].
    now rewrite app_nil_r.
  - destruct (profile_of rt x) as [p|] eqn:Hx; [|reflexivity].
    cbn [option_map]. rewrite bump_other; [reflexivity|exact Hxt|congruence].
Qed.

Lemma follow_without_profile_is_half_witness :
  live bob_and_visitor visitor /\ live bob_and_visitor bob_there /\
  profile_of bob_and_visitor (Js.hex visitor) = None /\
  Scenario.followers_of Scenario.bob (after (followUser visitor bob_there) bob_and_visitor)
  = Some [Scenario.carol].
Proof.
  assert (Hv : live bob_and_visitor visitor) by (unfold live; simpl; lia).
  assert (Hb : live bob_and_visitor bob_there) by (unfold live; simpl; lia).
  split; [exact Hv|]. split; [exact Hb|]. split; [reflexivity|].
  unfold Scenario.followers_of.
  rewrite (proj2 (@follow_without_profile_is_half visitor bob_there bob_and_visitor _
                    Hv Hb eq_refl eq_refl) Scenario.bob).
  reflexivity.
Defined.

(** The heap only grows during a call. *)
Lemma followUser_heap (u t : Js.ObjectId) (rt : Runtime) :
  heap_top rt <= heap_top (after (followUser u t) rt).
Proof.
  unfold after, followUser, bind, readOne.
  destruct (Doc.readOne (by_userId t) (profiles rt)) as [pt|]; cbn [snd throw]; [|lia].
  rewrite when_update. cbn [profiles heap_top].
  match goal with |- context [Doc.readOne (by_userId u) ?c] =>
    destruct (Doc.readOne (by_userId u) c) as [cu|] end.
  - rewrite when_update. cbn. lia.
  - cbn. lia.
Qed.

Lemma follow_times_heap (k : nat) (u t : Js.ObjectId) (rt : Runtime) :
  heap_top rt <= heap_top (follow_times k u t rt).
Proof.
  induction k as [|k IH]; cbn [follow_times]; [lia|].
  pose proof (followUser_heap u t (follow_times k u t rt)). lia.
Qed.

(** X23. Following again adds again: after [k] calls of
    [followUser(user, target)] in a row, on objects made before the
    first, the target's followers are the old ones followed by [k] copies
    of the user, and those the user follows are the old ones followed by
    [k] copies of the target. *)
Theorem follow_times_copies (k : nat) (u t : Js.ObjectId) (rt : Runtime)
  (pt pu : Doc.ProfileDoc N) :
  live rt u -> live rt t ->
  profile_of rt (Js.hex t) = Some pt ->
  profile_of rt (Js.hex u) = Some pu ->
  exists pt' pu',
    profile_of (follow_times k u t rt) (Js.hex t) = Some pt' /\
    profile_of (follow_times k u t rt) (Js.hex u) = Some pu' /\
    Doc.followers pt' = Doc.followers pt ++ repeat (Js.hex u) k /\
    Doc.following pu' = Doc.following pu ++ repeat (Js.hex t) k.
Proof.
  intros Hu Ht Hpt Hpu. induction k as [|k IH]; cbn [follow_times repeat].
  - exists pt, pu. now rewrite !app_nil_r.
  - destruct IH as [pt' [pu' [Hpt' [Hpu' [Hfs Hfg]]]]].
    pose proof (follow_times_heap k u t rt) as Hheap.
    assert (Hu' : live (follow_times k u t rt) u) by (unfold live in *; lia).
    assert (Ht' : live (follow_times k u t rt) t) by (unfold live in *; lia).
    destruct (followUser_found Hu' Ht' Hpt') as [_ Hprof].
    exists (bump (Js.hex u) (Js.hex t) (Js.hex t) pt'), (bump (Js.hex u) (Js.hex t) (Js.hex u) pu').
    rewrite !Hprof, Hpt', Hpu'. split; [reflexivity|]. split; [reflexivity|].
    unfold bump; cbn [Doc.followers Doc.following]. rewrite !N.eqb_refl, Hfs, Hfg.
    rewrite <- !app_assoc, <- !repeat_cons. split; reflexivity.
Qed.

Lemma follow_times_copies_witness :
  live Scenario.signed_up Scenario.alice_object /\
  live Scenario.signed_up Scenario.bob_object /\
  exists pt' pu',
    profile_of (follow_times 3 Scenario.alice_object Scenario.bob_object Scenario.signed_up)
      Scenario.bob = Some pt' /\
    profile_of (follow_times 3 Scenario.alice_object Scenario.bob_object Scenario.signed_up)
      Scenario.alice = Some pu' /\
    Doc.followers pt' = [Scenario.alice; Scenario.alice; Scenario.alice] /\
    Doc.following pu' = [Scenario.bob; Scenario.bob; Scenario.bob].
Proof.
  assert (Ha : live Scenario.signed_up Scenario.alice_object) by (unfold live; simpl; lia).
  assert (Hb : live Scenario.signed_up Scenario.bob_object) by (unfold live; simpl; lia).
  split; [exact Ha|]. split; [exact Hb|].
  exact (@follow_times_copies 3 Scenario.alice_object Scenario.bob_object Scenario.signed_up
           _ _ Ha Hb eq_refl eq_refl).
Defined.

End ProfileFacts.
